(** * countries-api: the refresh-and-reconcile pipeline

    A shallow embedding of the three services of the repository

      - [app/services/countries_service.py]  (class [CountriesAPIService])
      - [app/services/exchange_service.py]   (class [ExchangeRateService])
      - [app/services/country_service.py]    (class [CountryService])

    together with the part of the SQLAlchemy session they rely on, and the
    properties of the specification that concern them.

    Conventions.  Python values that come out of [response.json()] are
    modelled by the type [json]; Python's [None] is [JNull].  A call that
    may raise returns a [pyresult]: [Return v] or [Raise msg], where [msg]
    is [str(e)] of the exception.  Python floats are idealised as exact
    rationals ([Q]); strings are byte strings, and case conversion acts on
    the ASCII letters. *)

From Stdlib Require Import ZArith QArith Lqa String Ascii List.
From stdpp Require Import base option list strings gmap sorting.

Open Scope string_scope.

(** ** Python results and JSON values *)

Inductive pyresult (A : Type) : Type :=
| Return (a : A)
| Raise (msg : string).
Arguments Return {A} a.
Arguments Raise {A} msg.

Unset Elimination Schemes.
Inductive json : Type :=
| JNull
| JBool (b : bool)
| JInt (z : Z)
| JFloat (q : Q)
| JStr (s : string)
| JList (l : list json)
| JObj (o : list (string * json)).
Set Elimination Schemes.

(** [d.get(k)] on a parsed object; the first binding of a key is the one
    the dict holds. *)
Fixpoint dict_get (d : list (string * json)) (k : string) : option json :=
  match d with
  | [] => None
  | (k', v) :: rest => if String.eqb k' k then Some v else dict_get rest k
  end.

(** [d.get(k, dflt)] *)
Definition py_get (d : list (string * json)) (k : string) (dflt : json) : json :=
  match dict_get d k with
  | Some v => v
  | None => dflt
  end.

(** [bool(v)] *)
Definition truthy (v : json) : bool :=
  match v with
  | JNull => false
  | JBool b => b
  | JInt z => negb (Z.eqb z 0)
  | JFloat q => negb (Qeq_bool q 0)
  | JStr s => negb (String.eqb s "")
  | JList l => match l with [] => false | _ => true end
  | JObj o => match o with [] => false | _ => true end
  end.

(** [len(v)]; [None] stands for the [TypeError] of an unsized value. *)
Definition py_len (v : json) : option nat :=
  match v with
  | JStr s => Some (String.length s)
  | JList l => Some (length l)
  | JObj o => Some (length o)
  | _ => None
  end.

(** [v[0]]; [None] stands for the exception: [IndexError] on an empty
    sequence, [KeyError] on a dict (its keys are strings), [TypeError] on
    the other values. *)
Definition py_item0 (v : json) : option json :=
  match v with
  | JList (x :: _) => Some x
  | JStr (String c _) => Some (JStr (String c ""))
  | _ => None
  end.

(** [type(v).__name__] *)
Definition type_name (v : json) : string :=
  match v with
  | JNull => "NoneType"
  | JBool _ => "bool"
  | JInt _ => "int"
  | JFloat _ => "float"
  | JStr _ => "str"
  | JList _ => "list"
  | JObj _ => "dict"
  end.

(** ASCII case conversion, as [str.upper], [str.lower] and SQL's [lower]
    act on ASCII text. *)
Definition ascii_upper (c : ascii) : ascii :=
  let n := nat_of_ascii c in
  if (97 <=? n)%nat && (n <=? 122)%nat then ascii_of_nat (n - 32) else c.

Definition ascii_lower (c : ascii) : ascii :=
  let n := nat_of_ascii c in
  if (65 <=? n)%nat && (n <=? 90)%nat then ascii_of_nat (n + 32) else c.

Fixpoint upper (s : string) : string :=
  match s with
  | EmptyString => EmptyString
  | String c rest => String (ascii_upper c) (upper rest)
  end.

Fixpoint lower (s : string) : string :=
  match s with
  | EmptyString => EmptyString
  | String c rest => String (ascii_lower c) (lower rest)
  end.

(** The outcome of one [httpx] GET followed by [raise_for_status()] and
    [response.json()]. *)
Inductive Http (A : Type) : Type :=
| Body (data : A)
| TimeoutException
| RequestError (e : string)
| OtherException (e : string).
Arguments Body {A} data.
Arguments TimeoutException {A}.
Arguments RequestError {A} e.
Arguments OtherException {A} e.

(** ** [CountriesAPIService]: the country fetcher and its normalizer *)

Module CountriesAPIService.

(** The dict built by [_process_country_data]: always these six keys. *)
Record Processed : Type := mkProcessed {
  name : json;
  capital : json;
  region : json;
  population : json;
  currency_code : json;
  flag_url : json
}.

(** Lines 51-58: the currency code of the first currency.  [None] is an
    exception raised inside the [try]. *)
Definition first_currency_code (currencies : json) : option json :=
  if truthy currencies then
    n ← py_len currencies;
    if (0 <? n)%nat then
      first ← py_item0 currencies;
      Some (match first with
            | JObj o => py_get o "code" JNull
            | JStr s => JStr s
            | _ => JNull
            end)
    else Some JNull
  else Some JNull.

(** [_process_country_data] on a dict: [None] when the [try] raised and
    the handler returned [None]. *)
Definition process_dict (d : list (string * json)) : option Processed :=
  currency_code ← first_currency_code (py_get d "currencies" (JList []));
  Some {| name := py_get d "name" (JStr "");
          capital := py_get d "capital" JNull;
          region := py_get d "region" JNull;
          population := py_get d "population" (JInt 0);
          currency_code := currency_code;
          flag_url := py_get d "flag" JNull |}.

(** On a value that is not a dict the first [country_data.get] raises
    [AttributeError]; the handler calls [country_data.get] again, and that
    second [AttributeError] leaves the function. *)
Definition _process_country_data (country_data : json)
  : pyresult (option Processed) :=
  match country_data with
  | JObj d => Return (process_dict d)
  | v => Raise ("'" ++ type_name v ++ "' object has no attribute 'get'")
  end.

(** Lines 30-36: the loop of [fetch_countries] over the payload of the
    country source, a JSON array.  A processed dict has six keys, so
    [if processed_country:] holds exactly when it is not [None]. *)
Fixpoint process_all (countries_data : list json)
    (processed_countries : list Processed) : pyresult (list Processed) :=
  match countries_data with
  | [] => Return processed_countries
  | country_data :: rest =>
      match _process_country_data country_data with
      | Raise msg => Raise msg
      | Return None => process_all rest processed_countries
      | Return (Some processed_country) =>
          process_all rest (processed_countries ++ [processed_country])
      end
  end.

Definition fetch_countries (response : Http (list json))
  : pyresult (list Processed) :=
  match response with
  | Body countries_data =>
      match process_all countries_data [] with
      | Return l => Return l
      | Raise e => Raise ("Unexpected error fetching countries: " ++ e)
      end
  | TimeoutException => Raise "Countries API request timed out"
  | RequestError e => Raise ("Error fetching countries data: " ++ e)
  | OtherException e => Raise ("Unexpected error fetching countries: " ++ e)
  end.

End CountriesAPIService.

(** Vocabulary of the normalizer's properties. *)
Module Normalizer.
Import CountriesAPIService.

(** The [currencies] entry of a raw record, as [_process_country_data]
    reads it. *)
Definition currencies_of (d : list (string * json)) : json :=
  py_get d "currencies" (JList []).

(** The code a currency descriptor carries: the [code] field of a
    structured object, the string itself for a bare code. *)
Definition descriptor_code (descriptor : json) : json :=
  match descriptor with
  | JObj o => py_get o "code" JNull
  | JStr s => JStr s
  | _ => JNull
  end.

(** The values of [currencies] on which the extraction raises: truthy and
    neither a list nor a string. *)
Definition unreadable (currencies : json) : bool :=
  truthy currencies
  && match currencies with
     | JList _ | JStr _ => false
     | _ => true
     end.

(** A record is rejected when the normalizer returns [None] for it. *)
Definition rejected (country_data : json) : Prop :=
  _process_country_data country_data = Return None.

(** The name field of a raw record is absent or empty. *)
Definition nameless (d : list (string * json)) : Prop :=
  dict_get d "name" = None ∨ dict_get d "name" = Some (JStr "").

(** Sample records. *)
Definition no_name : list (string * json) :=
  [("capital", JStr "Abuja"); ("population", JInt 1000000)].

Definition ghana : list (string * json) :=
  [("name", JStr "Ghana"); ("capital", JStr "Accra");
   ("currencies", JList [JObj [("code", JStr "GHS"); ("name", JStr "Cedi")]])].

Definition two_currencies : list (string * json) :=
  [("name", JStr "Kosovo"); ("currencies", JList [JStr "EUR"; JStr "USD"])].

Definition scalar_currency : list (string * json) :=
  [("name", JStr "Kosovo"); ("currencies", JStr "EUR")].

Definition lowercase_currency : list (string * json) :=
  [("name", JStr "Germany"); ("currencies", JList [JObj [("code", JStr "eur")]])].

Definition numeric_currencies : list (string * json) :=
  [("name", JStr "Atlantis"); ("currencies", JInt 3)].

End Normalizer.

(** ** [ExchangeRateService]: the rate fetcher *)

Module ExchangeRateService.

(** [data.get("rates", {})]; a payload that is not a dict has no [get]. *)
Definition fetch_exchange_rates (response : Http json) : pyresult json :=
  match response with
  | Body (JObj data) => Return (py_get data "rates" (JObj []))
  | Body v =>
      Raise ("Unexpected error fetching exchange rates: "
             ++ "'" ++ type_name v ++ "' object has no attribute 'get'")
  | TimeoutException => Raise "Exchange rates API request timed out"
  | RequestError e => Raise ("Error fetching exchange rates: " ++ e)
  | OtherException e => Raise ("Unexpected error fetching exchange rates: " ++ e)
  end.

(** [get_rate_for_currency]: the one place of the repository that
    changes the case of a currency code, for the key of its own lookup.
    Every exception is answered by [None]. *)
Definition get_rate_for_currency (response : Http json)
    (currency_code : string) : json :=
  match fetch_exchange_rates response with
  | Return rates =>
      if String.eqb currency_code "" then JNull
      else match rates with
           | JObj d => py_get d (upper currency_code) JNull
           | _ => JNull
           end
  | Raise _ => JNull
  end.

End ExchangeRateService.

(** ** The [Country] model and the dicts of the reconciliation engine *)

(** Rationals stand for floats: [a < b] as a boolean. *)
Definition Qltb (a b : Q) : bool :=
  match (a ?= b)%Q with
  | Lt => true
  | _ => false
  end.

(** A normalized country as the engine reads it.  The engine takes the
    dicts of [fetch_countries] at the types of the [Country] columns they
    are stored in: [name] a string, [population] an integer, the optional
    columns a string or [None]; the rate table is a [Dict[str, float]], as
    the signature of [_process_country_for_db] has it. *)
Module NormalizedCountry.
Record t : Type := mk {
  name : string;
  capital : option string;
  region : option string;
  population : Z;
  currency_code : option string;
  flag_url : option string
}.
End NormalizedCountry.

(** The dict returned by [_process_country_for_db]: nine keys. *)
Module CountryDict.
Record t : Type := mk {
  name : string;
  capital : option string;
  region : option string;
  population : Z;
  currency_code : option string;
  exchange_rate : option Q;
  estimated_gdp : option Q;
  flag_url : option string;
  last_refreshed_at : Z
}.
End CountryDict.

(** [app/models/country.py]: a row of the table [countries]. *)
Module Country.
Record t : Type := mk {
  id : nat;
  name : string;
  capital : option string;
  region : option string;
  population : Z;
  currency_code : option string;
  exchange_rate : option Q;
  estimated_gdp : option Q;
  flag_url : option string;
  last_refreshed_at : Z
}.

(** The object built from the dict's keyword arguments, once the flush has
    given it the primary key [i]. *)
Definition of_dict (i : nat) (d : CountryDict.t) : t :=
  {| id := i;
     name := CountryDict.name d;
     capital := CountryDict.capital d;
     region := CountryDict.region d;
     population := CountryDict.population d;
     currency_code := CountryDict.currency_code d;
     exchange_rate := CountryDict.exchange_rate d;
     estimated_gdp := CountryDict.estimated_gdp d;
     flag_url := CountryDict.flag_url d;
     last_refreshed_at := CountryDict.last_refreshed_at d |}.
End Country.

(** ** [CountryService]: the reconciliation engine *)

Module CountryService.

(** *** The catalog store and the session

    The table [countries] with its auto-increment counter.  The session is
    made by [sessionmaker(autocommit=False, autoflush=False)]: a query reads
    the rows of the table as they were when the transaction began and hands
    out the session's object for the row it finds; attribute writes and
    [add] stay in the session until [commit] flushes them. *)
Record Store : Type := mkStore {
  rows : list Country.t;
  next_id : nat
}.

Record Session : Type := mkSession {
  identity_map : list Country.t;   (* the objects of the rows, row by row *)
  new : list CountryDict.t         (* objects given to [add], in order *)
}.

Definition begin (st : Store) : Session :=
  {| identity_map := rows st; new := [] |}.

(** What the engine cannot decide: the outcome of the two fetches, the
    draws of [random.uniform(1000, 2000)] and the readings of
    [datetime.utcnow()] at each iteration of the loop, a failure raised by
    the database at commit, and the collation of the unique index on
    [name]. *)
Record World : Type := mkWorld {
  fetch_countries : pyresult (list NormalizedCountry.t);
  fetch_exchange_rates : pyresult (gmap string Q);
  uniform : nat → Q;
  utcnow : nat → Z;
  commit_failure : option string;
  case_insensitive_index : bool
}.

(** [db.query(Country).filter(func.lower(Country.name) == func.lower(n)).first()]:
    the position of the first row of the table whose name matches. *)
Definition same_name (n : string) (c : Country.t) : Prop :=
  lower (Country.name c) = lower n.

#[global] Instance same_name_dec n c : Decision (same_name n c) :=
  decide (lower (Country.name c) = lower n).

Definition query_first (table : list Country.t) (n : string) : option nat :=
  fst <$> list_find (same_name n) table.

(** *** [_process_country_for_db] *)
Definition _process_country_for_db (country_data : NormalizedCountry.t)
    (exchange_rates : gmap string Q) (random_multiplier : Q) (now : Z)
  : CountryDict.t :=
  let currency_code := NormalizedCountry.currency_code country_data in
  let rate_and_gdp : option Q * Q :=
    match currency_code with
    | Some code =>
        if negb (String.eqb code "") then
          match exchange_rates !! code with
          | Some rate =>
              (Some rate,
               if negb (Qeq_bool rate 0) && Qltb 0 rate then
                 let population :=
                   inject_Z (NormalizedCountry.population country_data) in
                 (population * random_multiplier / rate)%Q
               else 0%Q)
          | None => (None, 0%Q)
          end
        else (None, 0%Q)
    | None => (None, 0%Q)
    end in
  let exchange_rate := rate_and_gdp.1 in
  let estimated_gdp := rate_and_gdp.2 in
  {| CountryDict.name := NormalizedCountry.name country_data;
     CountryDict.capital := NormalizedCountry.capital country_data;
     CountryDict.region := NormalizedCountry.region country_data;
     CountryDict.population := NormalizedCountry.population country_data;
     CountryDict.currency_code := currency_code;
     CountryDict.exchange_rate := exchange_rate;
     CountryDict.estimated_gdp :=
       if Qltb 0 estimated_gdp then Some estimated_gdp else None;
     CountryDict.flag_url := NormalizedCountry.flag_url country_data;
     CountryDict.last_refreshed_at := now |}.

(** *** [_update_country]: every key of the dict is an attribute of
    [Country], so [setattr] runs for all nine; [id] is not a key. *)
Definition _update_country (existing_country : Country.t)
    (new_data : CountryDict.t) : Country.t :=
  Country.of_dict (Country.id existing_country) new_data.

(** *** The loop of [refresh_countries_data] (lines 30-50) *)
Fixpoint refresh_loop (w : World) (table : list Country.t)
    (exchange_rates : gmap string Q) (i : nat)
    (countries_data : list NormalizedCountry.t)
    (s : Session) (countries_updated countries_added : nat)
  : Session * nat * nat :=
  match countries_data with
  | [] => (s, countries_updated, countries_added)
  | country_data :: rest =>
      let processed_country :=
        _process_country_for_db country_data exchange_rates
          (uniform w i) (utcnow w i) in
      match query_first table (CountryDict.name processed_country) with
      | Some k =>
          let s' :=
            {| identity_map :=
                 alter (λ existing_country,
                          _update_country existing_country processed_country)
                       k (identity_map s);
               new := new s |} in
          refresh_loop w table exchange_rates (S i) rest s'
            (S countries_updated) countries_added
      | None =>
          let s' :=
            {| identity_map := identity_map s;
               new := new s ++ [processed_country] |} in
          refresh_loop w table exchange_rates (S i) rest s'
            countries_updated (S countries_added)
      end
  end.

(** *** Commit and rollback

    The flush writes the modified objects and inserts the new ones with
    fresh primary keys.  [name] is declared [unique=True]: the flush fails
    when the table it would produce holds two rows with the same key, the
    key being the name, case-folded when the index is case-insensitive. *)
Definition index_key (w : World) (n : string) : string :=
  if case_insensitive_index w then lower n else n.

Definition flushed (st : Store) (s : Session) : list Country.t :=
  identity_map s ++ imap (λ j d, Country.of_dict (next_id st + j) d) (new s).

Definition integrity_error : string :=
  "IntegrityError: Duplicate entry for key 'name'".

Definition commit (w : World) (st : Store) (s : Session) : pyresult Store :=
  match commit_failure w with
  | Some msg => Raise msg
  | None =>
      if bool_decide (NoDup (index_key w ∘ Country.name <$> flushed st s))
      then Return {| rows := flushed st s;
                     next_id := next_id st + length (new s) |}
      else Raise integrity_error
  end.

(** [db.rollback()]: the session's changes are dropped, the table is the
    one the transaction began with. *)
Definition rollback (st : Store) (s : Session) : Store := st.

(** *** [refresh_countries_data] *)
Definition refresh_error (e : string) : string :=
  "Failed to refresh countries data: " ++ e.

Definition refresh_countries_data (w : World) (st : Store)
  : pyresult (nat * nat) * Store :=
  let s0 := begin st in
  match fetch_countries w with
  | Raise e => (Raise (refresh_error e), rollback st s0)
  | Return countries_data =>
      match fetch_exchange_rates w with
      | Raise e => (Raise (refresh_error e), rollback st s0)
      | Return exchange_rates =>
          let '(s, countries_updated, countries_added) :=
            refresh_loop w (rows st) exchange_rates 0 countries_data s0 0 0 in
          match commit w st s with
          | Return st' => (Return (countries_updated, countries_added), st')
          | Raise e => (Raise (refresh_error e), rollback st s)
          end
      end
  end.

(** *** [get_country_by_name] and [delete_country_by_name] *)
Definition get_country_by_name (st : Store) (n : string) : option Country.t :=
  snd <$> list_find (same_name n) (rows st).

Definition delete_country_by_name (st : Store) (n : string) : bool * Store :=
  match query_first (rows st) n with
  | Some k => (true, {| rows := delete k (rows st); next_id := next_id st |})
  | None => (false, st)
  end.

End CountryService.

(** ** Vocabulary of the properties *)

Module Reconciliation.
Import CountryService.

(** The dicts built by the loop for a feed, the loop being at iteration
    [i] when it reaches the head of the feed. *)
Fixpoint processed_from (w : World) (exchange_rates : gmap string Q) (i : nat)
    (countries_data : list NormalizedCountry.t) : list CountryDict.t :=
  match countries_data with
  | [] => []
  | country_data :: rest =>
      _process_country_for_db country_data exchange_rates
        (uniform w i) (utcnow w i)
      :: processed_from w exchange_rates (S i) rest
  end.

(** One iteration of the loop, on the dict already processed. *)
Definition reconcile (table : list Country.t)
    (acc : Session * nat * nat) (p : CountryDict.t) : Session * nat * nat :=
  let '(s, countries_updated, countries_added) := acc in
  match query_first table (CountryDict.name p) with
  | Some k =>
      ({| identity_map :=
            alter (λ existing_country, _update_country existing_country p)
                  k (identity_map s);
          new := new s |},
       S countries_updated, countries_added)
  | None =>
      ({| identity_map := identity_map s; new := new s ++ [p] |},
       countries_updated, S countries_added)
  end.

(** A dict is a sighting of row [k] when the lookup of its name finds row
    [k]; it is unmatched when the lookup finds nothing. *)
Definition sights (table : list Country.t) (k : nat) (p : CountryDict.t) : Prop :=
  query_first table (CountryDict.name p) = Some k.

Definition matched (table : list Country.t) (p : CountryDict.t) : Prop :=
  is_Some (query_first table (CountryDict.name p)).

Definition unmatched (table : list Country.t) (p : CountryDict.t) : Prop :=
  query_first table (CountryDict.name p) = None.

#[global] Instance sights_dec table k p : Decision (sights table k p) :=
  decide (query_first table (CountryDict.name p) = Some k).
#[global] Instance matched_dec table p : Decision (matched table p) :=
  decide (is_Some (query_first table (CountryDict.name p))).
#[global] Instance unmatched_dec table p : Decision (unmatched table p) :=
  decide (query_first table (CountryDict.name p) = None).

(** The object of row [k] after the dicts [ds] went through the loop: the
    last sighting wins. *)
Definition latest (table : list Country.t) (ds : list CountryDict.t)
    (k : nat) (e : Country.t) : Country.t :=
  match last (filter (sights table k) ds) with
  | Some p => _update_country e p
  | None => e
  end.

(** Names after case-folding, the identity of the catalog. *)
Definition folded_names (l : list Country.t) : list string :=
  (λ c, lower (Country.name c)) <$> l.

Definition feed_names (l : list NormalizedCountry.t) : list string :=
  (λ c, lower (NormalizedCountry.name c)) <$> l.

Definition dict_names (l : list CountryDict.t) : list string :=
  (λ p, lower (CountryDict.name p)) <$> l.

(** The session and the counters when the loop of
    [refresh_countries_data] ends. *)
Definition loop_result (w : World) (st : Store) (rates : gmap string Q)
    (feed : list NormalizedCountry.t) : Session * nat * nat :=
  fold_left (reconcile (rows st)) (processed_from w rates 0 feed)
            (begin st, 0, 0).

(** The rate [_process_country_for_db] resolves for a country: the entry
    of the rate table under its currency code, when the code is truthy and
    a key of the table. *)
Definition resolved_rate (cd : NormalizedCountry.t)
    (exchange_rates : gmap string Q) : option Q :=
  match NormalizedCountry.currency_code cd with
  | Some code => if String.eqb code "" then None else exchange_rates !! code
  | None => None
  end.

(** A row written from a processed dict: the dict's nine values under
    some primary key ([_update_country] keeps the key of the entry, an
    insertion takes a fresh one). *)
Definition written_from (p : CountryDict.t) (row : Country.t) : Prop :=
  ∃ i, row = Country.of_dict i p.

(** A country of the feed is known to the store when the lookup by name
    finds an entry for it. *)
Definition known (st : Store) (cd : NormalizedCountry.t) : Prop :=
  is_Some (get_country_by_name st (NormalizedCountry.name cd)).

#[global] Instance known_dec st cd : Decision (known st cd) :=
  decide (is_Some (get_country_by_name st (NormalizedCountry.name cd))).

(** The messages by which the two fetchers report a failure. *)
Definition countries_failure (msg : string) : Prop :=
  msg = "Countries API request timed out"
  ∨ (∃ e, msg = "Error fetching countries data: " ++ e)
  ∨ (∃ e, msg = "Unexpected error fetching countries: " ++ e).

Definition rates_failure (msg : string) : Prop :=
  msg = "Exchange rates API request timed out"
  ∨ (∃ e, msg = "Error fetching exchange rates: " ++ e)
  ∨ (∃ e, msg = "Unexpected error fetching exchange rates: " ++ e).

End Reconciliation.

(** ** Sample data *)

Module Samples.
Import CountryService.

Definition nigeria : NormalizedCountry.t :=
  NormalizedCountry.mk "Nigeria" (Some "Abuja") (Some "Africa") 1000000
                       (Some "NGN") None.

Definition NIGERIA : NormalizedCountry.t :=
  NormalizedCountry.mk "NIGERIA" (Some "Abuja") (Some "Africa") 1000000
                       (Some "NGN") None.

Definition ghana : NormalizedCountry.t :=
  NormalizedCountry.mk "Ghana" (Some "Accra") (Some "Africa") 31072945
                       (Some "GHS") None.

Definition rates : gmap string Q := {[ "NGN" := 2%Q ]}.

(** Both fetches succeed, every draw is 1500, the clock reads 100 + i at
    iteration i, the commit meets no failure of the database. *)
Definition world (feed : list NormalizedCountry.t) (ci : bool) : World :=
  {| fetch_countries := Return feed;
     fetch_exchange_rates := Return rates;
     uniform := λ _, 1500%Q;
     utcnow := λ i, (100 + Z.of_nat i)%Z;
     commit_failure := None;
     case_insensitive_index := ci |}.

Definition rates_down : World :=
  {| fetch_countries := Return [nigeria; ghana];
     fetch_exchange_rates := Raise "Exchange rates API request timed out";
     uniform := λ _, 1500%Q;
     utcnow := λ i, (100 + Z.of_nat i)%Z;
     commit_failure := None;
     case_insensitive_index := true |}.

Definition database_down : World :=
  {| fetch_countries := Return [nigeria; ghana];
     fetch_exchange_rates := Return rates;
     uniform := λ _, 1500%Q;
     utcnow := λ i, (100 + Z.of_nat i)%Z;
     commit_failure := Some "OperationalError: Lost connection to MySQL server";
     case_insensitive_index := true |}.

Definition empty_store : Store := {| rows := []; next_id := 1 |}.

Definition nigeria_row : Country.t :=
  Country.mk 1 "Nigeria" (Some "Lagos") (Some "Africa") 900000
             (Some "NGN") (Some 3%Q) (Some 450000000%Q) None 7.

Definition ghana_row : Country.t :=
  Country.mk 2 "Ghana" (Some "Accra") (Some "Africa") 31072945
             None None None None 7.

Definition store : Store := {| rows := [nigeria_row; ghana_row]; next_id := 3 |}.

(** [nigeria_row] once a refresh has sighted it as [NIGERIA], at
    iteration 0 of [world]. *)
Definition nigeria_updated : Country.t :=
  Country.mk 1 "NIGERIA" (Some "Abuja") (Some "Africa") 1000000
             (Some "NGN") (Some 2%Q) (Some (1500000000 # 2)%Q) None 100.

End Samples.

(** ** [CountryService]: the read operations

    [get_countries], [get_countries_stats] and [get_top_countries_by_gdp]
    of [app/services/country_service.py], as queries over the rows of the
    table. *)

Module CountryReads.
Import CountryService.

(** [func.lower(Country.region) == func.lower(region)] and the same for
    the currency: a NULL column compares to nothing. *)
Definition region_is (region : string) (c : Country.t) : Prop :=
  lower <$> Country.region c = Some (lower region).

Definition currency_is (currency : string) (c : Country.t) : Prop :=
  lower <$> Country.currency_code c = Some (lower currency).

#[global] Instance region_is_dec region c : Decision (region_is region c) :=
  decide (lower <$> Country.region c = Some (lower region)).
#[global] Instance currency_is_dec currency c : Decision (currency_is currency c) :=
  decide (lower <$> Country.currency_code c = Some (lower currency)).

(** [if region: query = query.filter(...)]: [None] and the empty string
    add no filter. *)
Definition where_region (region : option string) (q : list Country.t)
  : list Country.t :=
  match region with
  | Some r => if String.eqb r "" then q else filter (region_is r) q
  | None => q
  end.

Definition where_currency (currency : option string) (q : list Country.t)
  : list Country.t :=
  match currency with
  | Some c => if String.eqb c "" then q else filter (currency_is c) q
  | None => q
  end.

(** The order of [estimated_gdp] in an ORDER BY of MySQL: NULL sorts below
    every value. *)
Definition gdp_le (a b : option Q) : bool :=
  match a, b with
  | None, _ => true
  | Some _, None => false
  | Some x, Some y => Qle_bool x y
  end.

Definition by_gdp_asc (a b : Country.t) : Prop :=
  gdp_le (Country.estimated_gdp a) (Country.estimated_gdp b) = true.
Definition by_gdp_desc (a b : Country.t) : Prop :=
  gdp_le (Country.estimated_gdp b) (Country.estimated_gdp a) = true.
Definition by_population_asc (a b : Country.t) : Prop :=
  (Country.population a <= Country.population b)%Z.
Definition by_population_desc (a b : Country.t) : Prop :=
  (Country.population b <= Country.population a)%Z.

#[global] Instance by_gdp_asc_dec a b : Decision (by_gdp_asc a b) :=
  decide (gdp_le (Country.estimated_gdp a) (Country.estimated_gdp b) = true).
#[global] Instance by_gdp_desc_dec a b : Decision (by_gdp_desc a b) :=
  decide (gdp_le (Country.estimated_gdp b) (Country.estimated_gdp a) = true).
#[global] Instance by_population_asc_dec a b : Decision (by_population_asc a b) :=
  decide (Country.population a <= Country.population b)%Z.
#[global] Instance by_population_desc_dec a b : Decision (by_population_desc a b) :=
  decide (Country.population b <= Country.population a)%Z.

Section get_countries.

(** The order of the collation of the column [name], which the database
    decides. *)
Variable name_le : string → string → bool.

Definition by_name_asc (a b : Country.t) : Prop :=
  name_le (Country.name a) (Country.name b) = true.
Definition by_name_desc (a b : Country.t) : Prop :=
  name_le (Country.name b) (Country.name a) = true.

#[global] Instance by_name_asc_dec a b : Decision (by_name_asc a b) :=
  decide (name_le (Country.name a) (Country.name b) = true).
#[global] Instance by_name_desc_dec a b : Decision (by_name_desc a b) :=
  decide (name_le (Country.name b) (Country.name a) = true).

(** Lines 108-120: the chain on [sort.lower()]; a key outside the six
    leaves the query without an ORDER BY. *)
Definition order_by (sort : option string) (q : list Country.t)
  : list Country.t :=
  match sort with
  | Some s =>
      if String.eqb s "" then q
      else if String.eqb (lower s) "gdp_desc" then merge_sort by_gdp_desc q
      else if String.eqb (lower s) "gdp_asc" then merge_sort by_gdp_asc q
      else if String.eqb (lower s) "population_desc"
           then merge_sort by_population_desc q
      else if String.eqb (lower s) "population_asc"
           then merge_sort by_population_asc q
      else if String.eqb (lower s) "name_asc" then merge_sort by_name_asc q
      else if String.eqb (lower s) "name_desc" then merge_sort by_name_desc q
      else q
  | None => q
  end.

(** [get_countries]; [skip] and [limit] are the non-negative integers the
    router lets through. *)
Definition get_countries (st : Store) (region currency sort : option string)
    (skip limit : nat) : list Country.t :=
  take limit
    (drop skip
       (order_by sort (where_currency currency (where_region region (rows st))))).

End get_countries.

(** [func.max] over a column: [None] on an empty table. *)
Definition sql_max (l : list Z) : option Z :=
  foldr (λ x acc, Some (match acc with
                        | Some m => Z.max x m
                        | None => x
                        end)) None l.

Record Stats : Type := mkStats {
  total_countries : nat;
  last_refreshed_at : option Z
}.

Definition get_countries_stats (st : Store) : Stats :=
  {| total_countries := length (rows st);
     last_refreshed_at := sql_max (Country.last_refreshed_at <$> rows st) |}.

Definition has_gdp (c : Country.t) : Prop := is_Some (Country.estimated_gdp c).

#[global] Instance has_gdp_dec c : Decision (has_gdp c) :=
  decide (is_Some (Country.estimated_gdp c)).

Definition get_top_countries_by_gdp (st : Store) (limit : nat)
  : list Country.t :=
  take limit (merge_sort by_gdp_desc (filter has_gdp (rows st))).

End CountryReads.

(** ** [app/utils/exceptions.py] and the handlers of
    [app/routers/countries.py] *)

Module Router.
Import CountryService.

Record HTTPException : Type := mkHTTPException {
  status_code : nat;
  detail : json
}.

Definition CountryNotFoundError (country_name : string) : HTTPException :=
  {| status_code := 404;
     detail := JObj [("error", JStr "Country not found")] |}.

Definition ExternalServiceError (service_name : string) : HTTPException :=
  {| status_code := 503;
     detail := JObj [("error", JStr "External data source unavailable");
                     ("details",
                      JStr ("Could not fetch data from " ++ service_name))] |}.

Definition InternalServerError (message : string) : HTTPException :=
  {| status_code := 500; detail := JObj [("error", JStr message)] |}.

(** [needle in hay] on strings. *)
Fixpoint starts_with (needle hay : string) : bool :=
  match needle, hay with
  | EmptyString, _ => true
  | String _ _, EmptyString => false
  | String a needle', String b hay' =>
      Ascii.eqb a b && starts_with needle' hay'
  end.

Fixpoint contains (needle hay : string) : bool :=
  starts_with needle hay
  || match hay with
     | EmptyString => false
     | String _ hay' => contains needle hay'
     end.

(** The handler of [refresh_countries] (lines 46-52), on [str(e)]. *)
Definition refresh_countries_except (e : string) : HTTPException :=
  if contains "Could not fetch data" e || contains "timeout" (lower e) then
    if contains "countries" (lower e) then
      ExternalServiceError "Countries API"
    else ExternalServiceError "Exchange Rates API"
  else InternalServerError ("Failed to refresh countries: " ++ e).

Inductive response (A : Type) : Type :=
| OK (body : A)
| Failed (e : HTTPException).
Arguments OK {A} body.
Arguments Failed {A} e.

(** GET [/countries/{name}] *)
Definition get_country_by_name (st : Store) (name : string)
  : response Country.t :=
  match CountryService.get_country_by_name st name with
  | Some country => OK country
  | None => Failed (CountryNotFoundError name)
  end.

(** DELETE [/countries/{name}] *)
Definition delete_country (st : Store) (name : string)
  : response json * Store :=
  let '(deleted, st') := delete_country_by_name st name in
  if deleted then
    (OK (JObj [("message",
                JStr ("Country '" ++ name ++ "' deleted successfully"))]), st')
  else (Failed (CountryNotFoundError name), st').

End Router.

(** ** Further vocabulary *)

Module Vocabulary.
Import CountryService.

(** A raw record that is a JSON object. *)
Definition is_object (v : json) : Prop :=
  match v with
  | JObj _ => True
  | _ => False
  end.

(** The message of the [AttributeError] a raw record that is no object
    ends the fetch with. *)
Definition not_an_object_error (v : json) : string :=
  "Unexpected error fetching countries: '" ++ type_name v
  ++ "' object has no attribute 'get'".

(** The keys [_process_country_data] reads. *)
Definition normalizer_keys : list string :=
  ["name"; "capital"; "region"; "population"; "currencies"; "flag"].


(** The six keys [get_countries] sorts by. *)
Definition sort_keys : list string :=
  ["gdp_desc"; "gdp_asc"; "population_desc"; "population_asc";
   "name_asc"; "name_desc"].

End Vocabulary.

(** * Properties *)

Module EngineFacts.
Import CountryService Reconciliation.
#[local] Open Scope list_scope.

Lemma refresh_loop_fold w table rates feed : ∀ i s u a,
  refresh_loop w table rates i feed s u a
  = fold_left (reconcile table) (processed_from w rates i feed) (s, u, a).
Proof.
  induction feed as [|cd rest IH]; intros i s u a; simpl; [done|].
  destruct (query_first table _) as [k|]; apply IH.
Qed.

Lemma processed_from_length w rates feed : ∀ i,
  length (processed_from w rates i feed) = length feed.
Proof. induction feed as [|cd rest IH]; intros i; simpl; [done|]. by rewrite IH. Qed.

Lemma processed_from_names w rates feed : ∀ i,
  CountryDict.name <$> processed_from w rates i feed
  = NormalizedCountry.name <$> feed.
Proof.
  induction feed as [|cd rest IH]; intros i; simpl; [done|].
  by rewrite IH.
Qed.


Lemma reconcile_snoc table ds p acc :
  fold_left (reconcile table) (ds ++ [p]) acc
  = reconcile table (fold_left (reconcile table) ds acc) p.
Proof. by rewrite fold_left_app. Qed.

(** The loop's result, component by component. *)
Lemma loop_new table ds s u a :
  new (fold_left (reconcile table) ds (s, u, a)).1.1
  = new s ++ filter (unmatched table) ds.
Proof.
  induction ds as [|p ds IH] using rev_ind; simpl.
  - by rewrite app_nil_r.
  - rewrite reconcile_snoc, filter_app.
    destruct (fold_left _ ds _) as [[s' u'] a'] eqn:E; simpl in *.
    unfold reconcile. rewrite filter_cons, filter_nil.
    destruct (decide (unmatched table p)) as [Hp|Hp]; unfold unmatched in Hp.
    + rewrite Hp. simpl. by rewrite IH, app_assoc.
    + destruct (query_first table _); [|done]. simpl. by rewrite IH, app_nil_r.
Qed.

Lemma query_cases table p :
  (∃ k, query_first table (CountryDict.name p) = Some k
        ∧ matched table p ∧ ¬ unmatched table p)
  ∨ (query_first table (CountryDict.name p) = None
     ∧ ¬ matched table p ∧ unmatched table p).
Proof.
  unfold matched, unmatched.
  destruct (query_first table (CountryDict.name p)) as [k|]; [left|right].
  - exists k. split_and!; [done|by eexists|done].
  - split_and!; [done|by intros [? ?]|done].
Qed.

Lemma loop_counters table ds s u a :
  (fold_left (reconcile table) ds (s, u, a)).1.2
  = u + length (filter (matched table) ds)
  ∧ (fold_left (reconcile table) ds (s, u, a)).2
  = a + length (filter (unmatched table) ds).
Proof.
  induction ds as [|p ds IH] using rev_ind; simpl.
  - split; lia.
  - rewrite reconcile_snoc, !filter_app, !length_app.
    destruct (fold_left _ ds _) as [[s' u'] a'] eqn:E; simpl in *.
    destruct IH as [-> ->].
    rewrite !filter_cons, !filter_nil. unfold reconcile.
    destruct (query_cases table p) as [(k & Q & Hm & Hu)|(Q & Hm & Hu)];
      rewrite Q; simpl.
    + rewrite decide_True by done. rewrite decide_False by done. simpl. lia.
    + rewrite decide_False by done. rewrite decide_True by done. simpl. lia.
Qed.

Lemma matched_or_unmatched table ds :
  length (filter (matched table) ds) + length (filter (unmatched table) ds)
  = length ds.
Proof.
  induction ds as [|p ds IH]; [done|].
  rewrite !filter_cons.
  destruct (query_cases table p) as [(k & Q & Hm & Hu)|(Q & Hm & Hu)].
  - rewrite decide_True by done. rewrite decide_False by done. simpl. lia.
  - rewrite decide_False by done. rewrite decide_True by done. simpl. lia.
Qed.


Lemma loop_identity_map table ds s u a k :
  identity_map (fold_left (reconcile table) ds (s, u, a)).1.1 !! k
  = latest table ds k <$> identity_map s !! k.
Proof.
  induction ds as [|p ds IH] using rev_ind; simpl.
  - unfold latest. simpl. by destruct (identity_map s !! k).
  - rewrite reconcile_snoc.
    destruct (fold_left _ ds _) as [[s' u'] a'] eqn:E; simpl in *.
    unfold latest in *. rewrite filter_app, filter_cons, filter_nil.
    destruct (decide (sights table k p)) as [Hs|Hs]; unfold reconcile.
    + unfold sights in Hs. rewrite Hs. simpl.
      rewrite list_lookup_alter_eq, IH, last_snoc.
      destruct (identity_map s !! k); simpl; [|done].
      by destruct (last _).
    + rewrite app_nil_r.
      destruct (query_first table (CountryDict.name p)) as [k0|] eqn:Q;
        simpl; [|done].
      rewrite list_lookup_alter_ne; [done|].
      intros ->. by apply Hs.
Qed.

Lemma loop_identity_length table ds s u a :
  length (identity_map (fold_left (reconcile table) ds (s, u, a)).1.1)
  = length (identity_map s).
Proof.
  induction ds as [|p ds IH] using rev_ind; simpl; [done|].
  rewrite reconcile_snoc.
  destruct (fold_left _ ds _) as [[s' u'] a'] eqn:E; simpl in *.
  unfold reconcile. destruct (query_first table _); simpl; [|done].
  by rewrite length_alter.
Qed.

(** The lookup by name. *)
Lemma query_first_Some table n k :
  query_first table n = Some k ↔
  ∃ e, table !! k = Some e ∧ lower (Country.name e) = lower n
       ∧ ∀ j e', table !! j = Some e' → j < k →
                 lower (Country.name e') ≠ lower n.
Proof.
  unfold query_first. split.
  - destruct (list_find _ table) as [[k' e]|] eqn:F; simpl; [|done].
    intros [= ->]. apply list_find_Some in F as (Hk & Hn & Hfirst).
    exists e. split_and!; [done|done|]. intros j e' Hj Hlt. by eapply Hfirst.
  - intros (e & Hk & Hn & Hfirst).
    assert (list_find (same_name n) table = Some (k, e)) as ->; [|done].
    apply list_find_Some. split_and!; [done|done|].
    intros j e' Hj Hlt. by eapply Hfirst.
Qed.

Lemma query_first_None table n :
  query_first table n = None ↔
  ∀ e, e ∈ table → lower (Country.name e) ≠ lower n.
Proof.
  unfold query_first. split.
  - destruct (list_find _ table) as [[k' e]|] eqn:F; simpl; [done|].
    intros _ e He. apply list_find_None in F.
    rewrite Forall_forall in F. by apply F.
  - intros H.
    assert (list_find (same_name n) table = None) as ->; [|done].
    apply list_find_None, Forall_forall. intros e He. by apply H.
Qed.


(** [refresh_countries_data], past the two fetches. *)
Lemma refresh_unfold w st feed rates :
  fetch_countries w = Return feed →
  fetch_exchange_rates w = Return rates →
  refresh_countries_data w st
  = match commit w st (loop_result w st rates feed).1.1 with
    | Return st' =>
        (Return ((loop_result w st rates feed).1.2,
                 (loop_result w st rates feed).2), st')
    | Raise e => (Raise (refresh_error e), st)
    end.
Proof.
  intros Hc Hr. unfold refresh_countries_data, loop_result.
  rewrite Hc, Hr, refresh_loop_fold.
  destruct (fold_left _ _ _) as [[s u] a]. simpl.
  by destruct (commit w st s).
Qed.

Lemma commit_Return w st s st' :
  commit w st s = Return st' →
  rows st' = flushed st s ∧ next_id st' = next_id st + length (new s)
  ∧ NoDup (index_key w ∘ Country.name <$> flushed st s).
Proof.
  unfold commit. destruct (commit_failure w); [done|].
  case_bool_decide; [|done]. intros [= <-]. by simpl.
Qed.

Lemma flushed_old w st rates feed k e :
  rows st !! k = Some e →
  flushed st (loop_result w st rates feed).1.1 !! k
  = Some (latest (rows st) (processed_from w rates 0 feed) k e).
Proof.
  intros Hk. unfold flushed, loop_result.
  rewrite lookup_app_l.
  - rewrite loop_identity_map. simpl. by rewrite Hk.
  - rewrite loop_identity_length. simpl. by eapply lookup_lt_Some.
Qed.

Lemma latest_id table ds k e : Country.id (latest table ds k e) = Country.id e.
Proof. unfold latest. by destruct (last _). Qed.

Lemma latest_unsighted table ds k e :
  table !! k = Some e →
  (∀ p, p ∈ ds → lower (CountryDict.name p) ≠ lower (Country.name e)) →
  latest table ds k e = e.
Proof.
  intros Hk Hno. unfold latest.
  destruct (last _) as [p|] eqn:L; [|done].
  apply last_Some_elem_of, list_elem_of_filter in L as [Hs Hin].
  apply query_first_Some in Hs as (e' & Hk' & Hn & _).
  simplify_eq. by destruct (Hno p Hin).
Qed.

Lemma latest_folded_name table ds k e :
  table !! k = Some e →
  lower (Country.name (latest table ds k e)) = lower (Country.name e).
Proof.
  intros Hk. unfold latest.
  destruct (last _) as [p|] eqn:L; [|done].
  apply last_Some_elem_of, list_elem_of_filter in L as [Hs Hin].
  apply query_first_Some in Hs as (e' & Hk' & Hn & _).
  simplify_eq. simpl. done.
Qed.

Lemma elem_of_processed_from w rates feed i p :
  p ∈ processed_from w rates i feed →
  ∃ cd, cd ∈ feed ∧ CountryDict.name p = NormalizedCountry.name cd.
Proof.
  revert i. induction feed as [|c rest IH]; intros i; simpl.
  - by intros ?%elem_of_nil.
  - intros [->|Hin]%elem_of_cons.
    + exists c. split; [left|done].
    + destruct (IH _ Hin) as (cd & ? & ?). exists cd. split; [by right|done].
Qed.

Lemma processed_from_elem w rates feed p : ∀ i,
  p ∈ processed_from w rates i feed →
  ∃ j cd, feed !! j = Some cd
    ∧ p = _process_country_for_db cd rates (uniform w (i + j)) (utcnow w (i + j)).
Proof.
  induction feed as [|c rest IH]; intros i; simpl.
  - by intros ?%elem_of_nil.
  - intros [->|Hin]%elem_of_cons.
    + exists 0, c. by rewrite Nat.add_0_r.
    + destruct (IH _ Hin) as (j & cd & Hj & ->).
      exists (S j), cd. by rewrite Nat.add_succ_r.
Qed.

Lemma dict_names_processed w rates feed i :
  dict_names (processed_from w rates i feed) = feed_names feed.
Proof.
  unfold dict_names, feed_names.
  pose proof (processed_from_names w rates feed i) as H.
  apply (f_equal (fmap lower)) in H.
  by rewrite <- !list_fmap_compose in H.
Qed.

(** The names of the table a flush produces. *)
Lemma folded_identity_map table ds u a :
  folded_names
    (identity_map (fold_left (reconcile table) ds
                     ({| identity_map := table; new := [] |}, u, a)).1.1)
  = folded_names table.
Proof.
  apply list_eq. intros k. unfold folded_names.
  rewrite !list_lookup_fmap, loop_identity_map. simpl.
  destruct (table !! k) as [e|] eqn:Hk; simpl; [|done].
  f_equal. by apply latest_folded_name.
Qed.

Lemma folded_inserted n l :
  folded_names (imap (λ j d, Country.of_dict (n + j) d) l) = dict_names l.
Proof.
  apply list_eq. intros k. unfold folded_names, dict_names.
  rewrite !list_lookup_fmap, list_lookup_imap.
  by destruct (l !! k).
Qed.

Lemma folded_flushed w st rates feed :
  folded_names (flushed st (loop_result w st rates feed).1.1)
  = folded_names (rows st)
    ++ dict_names (filter (unmatched (rows st)) (processed_from w rates 0 feed)).
Proof.
  unfold flushed, loop_result, begin.
  unfold folded_names at 1. rewrite fmap_app. fold (folded_names).
  change (fmap (λ c, lower (Country.name c))) with folded_names.
  rewrite folded_identity_map, folded_inserted, loop_new. simpl. done.
Qed.

Lemma commit_succeeds w st s :
  commit_failure w = None →
  NoDup (folded_names (flushed st s)) →
  commit w st s
  = Return {| rows := flushed st s; next_id := next_id st + length (new s) |}.
Proof.
  intros Hf Hnd. unfold commit. rewrite Hf.
  rewrite bool_decide_eq_true_2; [done|].
  unfold index_key. destruct (case_insensitive_index w).
  - exact Hnd.
  - unfold folded_names in Hnd.
    change (λ c, lower (Country.name c)) with (lower ∘ Country.name) in Hnd.
    rewrite list_fmap_compose in Hnd. by apply NoDup_fmap_1 in Hnd.
Qed.

Lemma first_flush_NoDup w st rates feed :
  NoDup (folded_names (rows st)) →
  NoDup (feed_names feed) →
  NoDup (folded_names (flushed st (loop_result w st rates feed).1.1)).
Proof.
  intros Hst Hfeed. rewrite folded_flushed. apply NoDup_app. split_and!.
  - done.
  - intros x Hx Hx'. unfold folded_names, dict_names in *.
    apply list_elem_of_fmap in Hx as (e & -> & He).
    apply list_elem_of_fmap in Hx' as (p & Hn & Hp).
    apply list_elem_of_filter in Hp as [Hu _].
    unfold unmatched in Hu. rewrite query_first_None in Hu.
    by destruct (Hu e He).
  - eapply sublist_NoDup.
    + rewrite <- (dict_names_processed w rates feed 0) in Hfeed. exact Hfeed.
    + unfold dict_names. apply fmap_sublist, sublist_filter.
Qed.

(** Once a feed has been committed, each of its names is found. *)
Lemma committed_names_are_found w st rates feed cd :
  cd ∈ feed →
  lower (NormalizedCountry.name cd)
  ∈ folded_names (flushed st (loop_result w st rates feed).1.1).
Proof.
  intros Hin. rewrite folded_flushed.
  assert (lower (NormalizedCountry.name cd)
          ∈ dict_names (processed_from w rates 0 feed)) as Hd.
  { rewrite dict_names_processed. unfold feed_names.
    by apply (list_elem_of_fmap_2 (λ c, lower (NormalizedCountry.name c))). }
  unfold dict_names in Hd. apply list_elem_of_fmap in Hd as (p & Hn & Hp).
  apply elem_of_app.
  destruct (query_first (rows st) (CountryDict.name p)) as [k|] eqn:Q.
  - left. apply query_first_Some in Q as (e & Hk & He & _).
    rewrite Hn, <- He. unfold folded_names.
    apply (list_elem_of_fmap_2 (λ c, lower (Country.name c))).
    by eapply list_elem_of_lookup_2.
  - right. rewrite Hn. unfold dict_names.
    apply (list_elem_of_fmap_2 (λ p, lower (CountryDict.name p))).
    by apply list_elem_of_filter.
Qed.

Lemma all_matched table ds :
  (∀ p, p ∈ ds → lower (CountryDict.name p) ∈ folded_names table) →
  filter (unmatched table) ds = [] ∧ filter (matched table) ds = ds.
Proof.
  induction ds as [|p ds IH]; intros H; [done|].
  destruct IH as [IH1 IH2]; [intros q Hq; apply H; by right|].
  assert (matched table p ∧ ¬ unmatched table p) as [Hm Hu].
  { destruct (query_cases table p) as [(k & _ & ? & ?)|(Q & _ & _)]; [done|].
    exfalso. rewrite query_first_None in Q.
    specialize (H p (list_elem_of_here _ _)). unfold folded_names in H.
    apply list_elem_of_fmap in H as (e & He & Hin).
    by destruct (Q e Hin). }
  rewrite !filter_cons. rewrite decide_False by done.
  rewrite decide_True by done. by rewrite IH1, IH2.
Qed.

(** Where the rows of a flushed table come from. *)
Lemma flushed_row_origin w st rates feed k row :
  flushed st (loop_result w st rates feed).1.1 !! k = Some row →
  rows st !! k = Some row
  ∨ ∃ j cd i, feed !! j = Some cd
      ∧ row = Country.of_dict i
                (_process_country_for_db cd rates (uniform w j) (utcnow w j)).
Proof.
  unfold flushed, loop_result. intros H.
  apply lookup_app_Some in H as [H|[_ H]].
  - rewrite loop_identity_map in H. simpl in H.
    destruct (rows st !! k) as [e|] eqn:Hk; simpl in H; [|done].
    injection H as <-. unfold latest.
    destruct (last _) as [p|] eqn:L; [right|by left].
    apply last_Some_elem_of, list_elem_of_filter in L as [_ Hin].
    apply processed_from_elem in Hin as (j & cd & Hj & ->).
    by exists j, cd, (Country.id e).
  - right. rewrite list_lookup_imap in H.
    destruct (new _ !! _) as [p|] eqn:Hp; simpl in H; [|done].
    injection H as <-.
    apply list_elem_of_lookup_2 in Hp. rewrite loop_new in Hp. simpl in Hp.
    apply list_elem_of_filter in Hp as [_ Hin].
    apply processed_from_elem in Hin as (j & cd & Hj & ->).
    by eexists j, cd, _.
Qed.

End EngineFacts.

(** ** The refresh as a whole *)

Module RefreshProperties.
Import CountryService Reconciliation EngineFacts.
#[local] Open Scope list_scope.

Lemma known_matched st cd p :
  CountryDict.name p = NormalizedCountry.name cd →
  known st cd ↔ matched (rows st) p.
Proof.
  intros E. unfold known, matched, get_country_by_name, query_first.
  rewrite E. by rewrite !fmap_is_Some.
Qed.

Lemma count_matched w st rates feed : ∀ i,
  length (filter (matched (rows st)) (processed_from w rates i feed))
  = length (filter (known st) feed).
Proof.
  induction feed as [|cd rest IH]; intros i; simpl; [done|].
  rewrite !filter_cons.
  set (p := _process_country_for_db cd rates (uniform w i) (utcnow w i)).
  pose proof (known_matched st cd p eq_refl) as Hk.
  destruct (decide (known st cd)) as [H|H].
  - rewrite decide_True by (by apply Hk). simpl. by rewrite IH.
  - rewrite decide_False by (by rewrite <- Hk). apply IH.
Qed.

(** C10.  A successful refresh counts every record of the fetched list
    exactly once: [countries_updated + countries_added] is the length of
    the list, [countries_updated] is the number of records for which the
    case-insensitive lookup finds an entry of the catalog, and
    [countries_added] the number of the others. *)
Theorem refresh_counts_each_record_once w st st' updated added :
  refresh_countries_data w st = (Return (updated, added), st') →
  ∃ feed, fetch_countries w = Return feed
    ∧ updated + added = length feed
    ∧ updated = length (filter (known st) feed)
    ∧ added = length feed - length (filter (known st) feed).
Proof.
  intros H.
  destruct (fetch_countries w) as [feed|e] eqn:Hc;
    [|by unfold refresh_countries_data in H; rewrite Hc in H].
  destruct (fetch_exchange_rates w) as [rates|e] eqn:Hr;
    [|by unfold refresh_countries_data in H; rewrite Hc, Hr in H].
  rewrite (refresh_unfold w st feed rates Hc Hr) in H.
  destruct (commit w st _) as [st1|e]; [|done].
  injection H as Hu Ha _.
  unfold loop_result in Hu, Ha.
  destruct (loop_counters (rows st) (processed_from w rates 0 feed)
              (begin st) 0 0) as [Eu Ea].
  rewrite Eu in Hu. rewrite Ea in Ha.
  pose proof (matched_or_unmatched (rows st) (processed_from w rates 0 feed)) as M.
  rewrite processed_from_length in M.
  rewrite count_matched in Hu, M.
  exists feed. split_and!; [done|lia|lia|lia].
Qed.

Lemma refresh_counts_each_record_once_witness :
  let w := {| fetch_countries :=
                Return [NormalizedCountry.mk "Ghana" None None 5 None None;
                        NormalizedCountry.mk "Togo" None None 7 None None];
              fetch_exchange_rates := Return ∅;
              uniform := λ _, 1500%Q; utcnow := λ _, 0%Z;
              commit_failure := None; case_insensitive_index := true |} in
  let st := {| rows := [Country.mk 1 "GHANA" None None 4 None None None None 0];
               next_id := 2 |} in
  ∃ feed, fetch_countries w = Return feed
    ∧ 1 + 1 = length feed
    ∧ 1 = length (filter (known st) feed)
    ∧ 1 = length feed - length (filter (known st) feed).
Proof.
  intros w st.
  eapply (refresh_counts_each_record_once w st). vm_compute. reflexivity.
Defined.

Lemma fetch_countries_failure response msg :
  CountriesAPIService.fetch_countries response = Raise msg →
  countries_failure msg.
Proof.
  unfold CountriesAPIService.fetch_countries, countries_failure.
  destruct response as [data| |e|e].
  - destruct (CountriesAPIService.process_all data []); [done|].
    intros [= <-]. right. right. by eexists.
  - intros [= <-]. by left.
  - intros [= <-]. right. left. by eexists.
  - intros [= <-]. right. right. by eexists.
Qed.

Lemma fetch_exchange_rates_failure response msg :
  ExchangeRateService.fetch_exchange_rates response = Raise msg →
  rates_failure msg.
Proof.
  unfold ExchangeRateService.fetch_exchange_rates, rates_failure.
  destruct response as [data| |e|e].
  - destruct data; try done; intros [= <-]; right; right; by eexists.
  - intros [= <-]. by left.
  - intros [= <-]. right. left. by eexists.
  - intros [= <-]. right. right. by eexists.
Qed.

(** C1.  A refresh changes the catalog store all-or-nothing.  If the
    country fetch or the rate fetch raises, the refresh raises the
    fetcher's message (which names the failing source) behind the refresh
    prefix and the store is the one it started with; if the commit raises,
    the session is rolled back, the commit's error is raised behind the
    same prefix and the store is the one it started with; whenever the
    refresh raises the store is unchanged, and the only store a refresh can
    leave behind besides the original is the one its commit returned. *)
Theorem refresh_is_all_or_nothing w st :
  (∀ e, fetch_countries w = Raise e →
        refresh_countries_data w st = (Raise (refresh_error e), st))
  ∧ (∀ feed e, fetch_countries w = Return feed →
        fetch_exchange_rates w = Raise e →
        refresh_countries_data w st = (Raise (refresh_error e), st))
  ∧ (∀ feed rates e, fetch_countries w = Return feed →
        fetch_exchange_rates w = Return rates →
        commit w st (loop_result w st rates feed).1.1 = Raise e →
        refresh_countries_data w st = (Raise (refresh_error e), st))
  ∧ (∀ msg st', refresh_countries_data w st = (Raise msg, st') → st' = st)
  ∧ (∀ r st', refresh_countries_data w st = (r, st') → st' ≠ st →
        ∃ feed rates, fetch_countries w = Return feed
          ∧ fetch_exchange_rates w = Return rates
          ∧ commit w st (loop_result w st rates feed).1.1 = Return st'
          ∧ r = Return ((loop_result w st rates feed).1.2,
                        (loop_result w st rates feed).2))
  ∧ (∀ response msg,
        CountriesAPIService.fetch_countries response = Raise msg →
        countries_failure msg)
  ∧ (∀ response msg,
        ExchangeRateService.fetch_exchange_rates response = Raise msg →
        rates_failure msg).
Proof.
  split_and!.
  - intros e Hc. unfold refresh_countries_data. by rewrite Hc.
  - intros feed e Hc Hr. unfold refresh_countries_data. by rewrite Hc, Hr.
  - intros feed rates e Hc Hr Hcommit.
    by rewrite (refresh_unfold w st feed rates Hc Hr), Hcommit.
  - intros msg st' H.
    destruct (fetch_countries w) as [feed|e] eqn:Hc;
      [|unfold refresh_countries_data in H; rewrite Hc in H; by simplify_eq].
    destruct (fetch_exchange_rates w) as [rates|e] eqn:Hr;
      [|unfold refresh_countries_data in H; rewrite Hc, Hr in H;
        by simplify_eq].
    rewrite (refresh_unfold w st feed rates Hc Hr) in H.
    destruct (commit w st _); by simplify_eq.
  - intros r st' H Hne.
    destruct (fetch_countries w) as [feed|e] eqn:Hc;
      [|unfold refresh_countries_data in H; rewrite Hc in H; by simplify_eq].
    destruct (fetch_exchange_rates w) as [rates|e] eqn:Hr;
      [|unfold refresh_countries_data in H; rewrite Hc, Hr in H;
        by simplify_eq].
    rewrite (refresh_unfold w st feed rates Hc Hr) in H.
    exists feed, rates.
    destruct (commit w st _) as [st1|e]; by simplify_eq.
  - apply fetch_countries_failure.
  - apply fetch_exchange_rates_failure.
Qed.

Example rates_down_aborts_the_refresh :
  refresh_countries_data Samples.rates_down Samples.store
  = (Raise "Failed to refresh countries data: Exchange rates API request timed out",
     Samples.store).
Proof. reflexivity. Qed.

Example failed_commit_is_rolled_back :
  refresh_countries_data Samples.database_down Samples.store
  = (Raise "Failed to refresh countries data: OperationalError: Lost connection to MySQL server",
     Samples.store).
Proof. reflexivity. Qed.

Example first_sighting_is_added :
  ∃ st', refresh_countries_data (Samples.world [Samples.nigeria] true)
           Samples.empty_store = (Return (0, 1), st')
    ∧ Country.name <$> rows st' = ["Nigeria"]
    ∧ Country.id <$> rows st' = [1]
    ∧ next_id st' = 2.
Proof. eexists. split_and!; vm_compute; reflexivity. Qed.

(** C7.  Refresh has no tombstones.  Every entry of the catalog keeps its
    row, its id and its case-folded name through a refresh, whatever the
    outcome; an entry whose name is, after case-folding, the name of no
    record of the feed is left exactly as it was.  Removing a row is what
    [delete_country_by_name] does, for the entry its lookup finds. *)
Theorem refresh_never_deletes w st k e :
  rows st !! k = Some e →
  (∃ e', rows (refresh_countries_data w st).2 !! k = Some e'
         ∧ Country.id e' = Country.id e
         ∧ lower (Country.name e') = lower (Country.name e))
  ∧ ((∀ feed cd, fetch_countries w = Return feed → cd ∈ feed →
        lower (NormalizedCountry.name cd) ≠ lower (Country.name e)) →
     rows (refresh_countries_data w st).2 !! k = Some e)
  ∧ (query_first (rows st) (Country.name e) = Some k →
     delete_country_by_name st (Country.name e)
     = (true, {| rows := delete k (rows st); next_id := next_id st |})).
Proof.
  intros Hk.
  split_and!.
  - destruct (fetch_countries w) as [feed|err] eqn:Hc;
      [|unfold refresh_countries_data; rewrite Hc; by exists e].
    destruct (fetch_exchange_rates w) as [rates|err] eqn:Hr;
      [|unfold refresh_countries_data; rewrite Hc, Hr; by exists e].
    rewrite (refresh_unfold w st feed rates Hc Hr).
    destruct (commit w st _) as [st1|err] eqn:Hcommit; [|by exists e].
    apply commit_Return in Hcommit as (Hrows & _ & _). simpl.
    rewrite Hrows, (flushed_old w st rates feed k e Hk).
    eexists. split_and!; [done|apply latest_id|by apply latest_folded_name].
  - intros Hno.
    destruct (fetch_countries w) as [feed|err] eqn:Hc;
      [|unfold refresh_countries_data; by rewrite Hc].
    destruct (fetch_exchange_rates w) as [rates|err] eqn:Hr;
      [|unfold refresh_countries_data; by rewrite Hc, Hr].
    rewrite (refresh_unfold w st feed rates Hc Hr).
    destruct (commit w st _) as [st1|err] eqn:Hcommit; [|done].
    apply commit_Return in Hcommit as (Hrows & _ & _). simpl.
    rewrite Hrows, (flushed_old w st rates feed k e Hk).
    f_equal. apply latest_unsighted; [done|].
    intros p Hp. apply elem_of_processed_from in Hp as (cd & Hin & ->).
    by eapply Hno.
  - intros Hq. unfold delete_country_by_name. by rewrite Hq.
Qed.

Lemma refresh_never_deletes_witness :
  rows Samples.store !! 1 = Some Samples.ghana_row
  ∧ rows (refresh_countries_data (Samples.world [Samples.NIGERIA] true)
            Samples.store).2 !! 1 = Some Samples.ghana_row.
Proof.
  split; [reflexivity|].
  refine (proj1 (proj2 (refresh_never_deletes
            (Samples.world [Samples.NIGERIA] true) Samples.store 1
            Samples.ghana_row eq_refl)) _).
  intros feed cd [= <-] Hin.
  apply list_elem_of_singleton in Hin as ->. vm_compute. discriminate.
Defined.

(** The run of a refresh whose fetches succeed and whose commit meets no
    failure of the database, on a store and a feed free of case-folded
    duplicates. *)
Lemma refresh_commits w st feed rates :
  NoDup (folded_names (rows st)) →
  NoDup (feed_names feed) →
  fetch_countries w = Return feed →
  fetch_exchange_rates w = Return rates →
  commit_failure w = None →
  ∃ st', refresh_countries_data w st
         = (Return (length (filter (known st) feed),
                    length feed - length (filter (known st) feed)), st')
    ∧ rows st' = flushed st (loop_result w st rates feed).1.1
    ∧ length (rows st')
      = length (rows st) + (length feed - length (filter (known st) feed)).
Proof.
  intros Hst Hfeed Hc Hr Hf.
  pose proof (first_flush_NoDup w st rates feed Hst Hfeed) as Hnd.
  pose proof (commit_succeeds w st _ Hf Hnd) as Hcommit.
  pose proof (matched_or_unmatched (rows st)
                (processed_from w rates 0 feed)) as M.
  rewrite processed_from_length, count_matched in M.
  eexists. split_and!.
  - rewrite (refresh_unfold w st feed rates Hc Hr), Hcommit.
    unfold loop_result.
    destruct (loop_counters (rows st) (processed_from w rates 0 feed)
                (begin st) 0 0) as [-> ->].
    rewrite count_matched.
    do 2 f_equal. simpl. f_equal. lia.
  - done.
  - simpl. unfold flushed, loop_result.
    rewrite length_app, length_imap, loop_identity_length, loop_new.
    simpl. lia.
Qed.

(** C2, amended.  Take a store and a feed in which no two names are equal
    after case-folding, and two refreshes that fetch this same feed and
    whose commits meet no failure of the database.  Then both refreshes
    succeed; the first one updates the records whose name the lookup
    finds in the store and adds one entry for each of the others;
    the second one returns [countries_added = 0] and [countries_updated]
    equal to the number of records of the feed; the names of the catalog
    are pairwise distinct after case-folding after each run, and the
    second run leaves the entries (ids and case-folded names) as the
    first one made them. *)
Theorem second_refresh_adds_nothing w1 w2 st feed rates1 rates2 :
  NoDup (folded_names (rows st)) →
  NoDup (feed_names feed) →
  fetch_countries w1 = Return feed →
  fetch_countries w2 = Return feed →
  fetch_exchange_rates w1 = Return rates1 →
  fetch_exchange_rates w2 = Return rates2 →
  commit_failure w1 = None →
  commit_failure w2 = None →
  ∃ updated added st1 st2,
    refresh_countries_data w1 st = (Return (updated, added), st1)
    ∧ refresh_countries_data w2 st1 = (Return (length feed, 0), st2)
    ∧ updated = length (filter (known st) feed)
    ∧ added = length feed - updated
    ∧ length (rows st1) = length (rows st) + added
    ∧ NoDup (folded_names (rows st1))
    ∧ NoDup (folded_names (rows st2))
    ∧ folded_names (rows st2) = folded_names (rows st1)
    ∧ Country.id <$> rows st2 = Country.id <$> rows st1.
Proof.
  intros Hst Hfeed Hc1 Hc2 Hr1 Hr2 Hf1 Hf2.
  destruct (refresh_commits w1 st feed rates1 Hst Hfeed Hc1 Hr1 Hf1)
    as (st1 & Hrun1 & Hrows1 & Hlen1).
  assert (Hst1 : NoDup (folded_names (rows st1))).
  { rewrite Hrows1. by apply first_flush_NoDup. }
  destruct (refresh_commits w2 st1 feed rates2 Hst1 Hfeed Hc2 Hr2 Hf2)
    as (st2 & Hrun2 & Hrows2 & _).
  assert (Hfound : ∀ p, p ∈ processed_from w2 rates2 0 feed →
            lower (CountryDict.name p) ∈ folded_names (rows st1)).
  { intros p Hp. apply elem_of_processed_from in Hp as (cd & Hin & ->).
    rewrite Hrows1. by apply committed_names_are_found. }
  destruct (all_matched _ _ Hfound) as [Hnone Hall].
  assert (Hknown : length (filter (known st1) feed) = length feed).
  { rewrite <- (count_matched w2 st1 rates2 feed 0), Hall.
    apply processed_from_length. }
  rewrite Hknown, Nat.sub_diag in Hrun2.
  assert (Hfolded : folded_names (rows st2) = folded_names (rows st1)).
  { rewrite Hrows2, folded_flushed, Hnone. unfold dict_names. simpl.
    by rewrite app_nil_r. }
  exists (length (filter (known st) feed)),
         (length feed - length (filter (known st) feed)), st1, st2.
  split_and!; [done|done|done|done|done|done|by rewrite Hfolded|done|].
  rewrite Hrows2. unfold flushed, loop_result.
  rewrite loop_new, Hnone. simpl. rewrite app_nil_r.
  apply list_eq. intros k. rewrite !list_lookup_fmap, loop_identity_map.
  simpl. destruct (rows st1 !! k); simpl; [|done].
  by rewrite latest_id.
Qed.

Lemma second_refresh_adds_nothing_witness :
  ∃ updated added st1 st2,
    refresh_countries_data (Samples.world [Samples.NIGERIA; Samples.ghana] true)
      Samples.store = (Return (updated, added), st1)
    ∧ refresh_countries_data
        (Samples.world [Samples.NIGERIA; Samples.ghana] false) st1
      = (Return (length [Samples.NIGERIA; Samples.ghana], 0), st2)
    ∧ updated
      = length (filter (known Samples.store) [Samples.NIGERIA; Samples.ghana])
    ∧ added = length [Samples.NIGERIA; Samples.ghana] - updated
    ∧ length (rows st1) = length (rows Samples.store) + added
    ∧ NoDup (folded_names (rows st1))
    ∧ NoDup (folded_names (rows st2))
    ∧ folded_names (rows st2) = folded_names (rows st1)
    ∧ Country.id <$> rows st2 = Country.id <$> rows st1.
Proof.
  apply (second_refresh_adds_nothing
           (Samples.world [Samples.NIGERIA; Samples.ghana] true)
           (Samples.world [Samples.NIGERIA; Samples.ghana] false)
           Samples.store [Samples.NIGERIA; Samples.ghana]
           Samples.rates Samples.rates);
    try reflexivity.
  - apply (bool_decide_unpack _). vm_compute. exact I.
  - apply (bool_decide_unpack _). vm_compute. exact I.
Defined.

(** C2, as stated, fails: two records of one feed whose names differ
    only by case are both looked up against the table as it was when the
    transaction began, both are added, and they do not resolve to one
    entry.  With an index that tells the two spellings apart the catalog
    ends with two entries of the same case-folded name; with a
    case-insensitive index the commit raises and the refresh returns no
    counters at all. *)
Lemma same_feed_spellings_are_not_merged :
  (∃ st1,
      refresh_countries_data
        (Samples.world [Samples.nigeria; Samples.NIGERIA] false)
        Samples.empty_store = (Return (0, 2), st1)
      ∧ folded_names (rows st1) = ["nigeria"; "nigeria"]
      ∧ ¬ NoDup (folded_names (rows st1)))
  ∧ refresh_countries_data
      (Samples.world [Samples.nigeria; Samples.NIGERIA] true)
      Samples.empty_store
    = (Raise (refresh_error integrity_error), Samples.empty_store).
Proof.
  split.
  - eexists. split_and!.
    + vm_compute. reflexivity.
    + vm_compute. reflexivity.
    + simpl. intros H. apply NoDup_cons in H as [H _].
      apply H. by left.
  - vm_compute. reflexivity.
Qed.

(** C9, amended.  After a successful refresh, take an entry of the
    catalog that the feed sights, and the dict [p] of its last sighting,
    built at iteration [j] from the record [cd].  The entry keeps its row
    and its id; every other column is overwritten with the value of [p]:
    the name (by the spelling of the feed, equal to the stored one after
    case-folding), capital, region, population, currency_code,
    exchange_rate, estimated_gdp and flag_url, and last_refreshed_at is
    the clock reading of iteration [j]. *)
Theorem refresh_overwrites_sighted_entry w st st' updated added feed rates k e p :
  refresh_countries_data w st = (Return (updated, added), st') →
  fetch_countries w = Return feed →
  fetch_exchange_rates w = Return rates →
  rows st !! k = Some e →
  last (filter (sights (rows st) k) (processed_from w rates 0 feed)) = Some p →
  ∃ e' j cd,
    rows st' !! k = Some e'
    ∧ feed !! j = Some cd
    ∧ p = _process_country_for_db cd rates (uniform w j) (utcnow w j)
    ∧ Country.id e' = Country.id e
    ∧ Country.name e' = NormalizedCountry.name cd
    ∧ lower (Country.name e') = lower (Country.name e)
    ∧ Country.capital e' = NormalizedCountry.capital cd
    ∧ Country.region e' = NormalizedCountry.region cd
    ∧ Country.population e' = NormalizedCountry.population cd
    ∧ Country.currency_code e' = NormalizedCountry.currency_code cd
    ∧ Country.exchange_rate e' = CountryDict.exchange_rate p
    ∧ Country.estimated_gdp e' = CountryDict.estimated_gdp p
    ∧ Country.flag_url e' = NormalizedCountry.flag_url cd
    ∧ Country.last_refreshed_at e' = utcnow w j.
Proof.
  intros Hrun Hc Hr Hk Hlast.
  rewrite (refresh_unfold w st feed rates Hc Hr) in Hrun.
  destruct (commit w st _) as [st1|err] eqn:Hcommit; [|done].
  injection Hrun as _ _ <-.
  apply commit_Return in Hcommit as (Hrows & _ & _).
  pose proof (flushed_old w st rates feed k e Hk) as Hrow.
  rewrite <- Hrows in Hrow.
  pose proof (latest_folded_name (rows st) (processed_from w rates 0 feed)
                k e Hk) as Hname.
  unfold latest in Hrow, Hname. rewrite Hlast in Hrow, Hname.
  apply last_Some_elem_of, list_elem_of_filter in Hlast as [_ Hin].
  apply processed_from_elem in Hin as (j & cd & Hj & ->).
  exists (_update_country e
            (_process_country_for_db cd rates (uniform w j) (utcnow w j))),
         j, cd.
  split_and!; done.
Qed.

Lemma refresh_overwrites_sighted_entry_witness :
  ∃ e' j cd,
    rows (refresh_countries_data (Samples.world [Samples.NIGERIA] true)
            Samples.store).2 !! 0 = Some e'
    ∧ [Samples.NIGERIA] !! j = Some cd
    ∧ _process_country_for_db Samples.NIGERIA Samples.rates 1500 100
      = _process_country_for_db cd Samples.rates
          (uniform (Samples.world [Samples.NIGERIA] true) j)
          (utcnow (Samples.world [Samples.NIGERIA] true) j)
    ∧ Country.id e' = Country.id Samples.nigeria_row
    ∧ Country.name e' = NormalizedCountry.name cd
    ∧ lower (Country.name e') = lower (Country.name Samples.nigeria_row)
    ∧ Country.capital e' = NormalizedCountry.capital cd
    ∧ Country.region e' = NormalizedCountry.region cd
    ∧ Country.population e' = NormalizedCountry.population cd
    ∧ Country.currency_code e' = NormalizedCountry.currency_code cd
    ∧ Country.exchange_rate e'
      = CountryDict.exchange_rate
          (_process_country_for_db Samples.NIGERIA Samples.rates 1500 100)
    ∧ Country.estimated_gdp e'
      = CountryDict.estimated_gdp
          (_process_country_for_db Samples.NIGERIA Samples.rates 1500 100)
    ∧ Country.flag_url e' = NormalizedCountry.flag_url cd
    ∧ Country.last_refreshed_at e'
      = utcnow (Samples.world [Samples.NIGERIA] true) j.
Proof.
  eapply (refresh_overwrites_sighted_entry
            (Samples.world [Samples.NIGERIA] true) Samples.store);
    [vm_compute; reflexivity|reflexivity|reflexivity|reflexivity|].
  vm_compute. reflexivity.
Defined.

(** C9, as stated, fails on the stored name: the update writes the name
    of the feed over it.  The entry stored as "Nigeria" and sighted as
    "NIGERIA" keeps its id and is named "NIGERIA" after the refresh. *)
Lemma update_overwrites_the_stored_name :
  ∃ e', rows (refresh_countries_data (Samples.world [Samples.NIGERIA] true)
                Samples.store).2 !! 0 = Some e'
    ∧ Country.id e' = Country.id Samples.nigeria_row
    ∧ Country.name Samples.nigeria_row = "Nigeria"
    ∧ Country.name e' = "NIGERIA"
    ∧ Country.name e' ≠ Country.name Samples.nigeria_row.
Proof.
  eexists. split_and!; [vm_compute; reflexivity|done|done|done|done].
Qed.

End RefreshProperties.

(** ** The derived estimate *)

Module EstimateProperties.
Import CountryService Reconciliation EngineFacts.
#[local] Open Scope Q_scope.

Lemma Qltb_lt a b : Qltb a b = true ↔ a < b.
Proof.
  unfold Qltb. rewrite Qlt_alt. destruct (a ?= b); split; congruence.
Qed.

Lemma Qltb_ge a b : Qltb a b = false ↔ b <= a.
Proof.
  split.
  - intros H. apply Qnot_lt_le. intros Hlt. apply Qltb_lt in Hlt. congruence.
  - intros H. destruct (Qltb a b) eqn:E; [|done].
    apply Qltb_lt in E. by apply Qlt_not_le in E.
Qed.

Lemma positive_is_nonzero r : 0 < r → Qeq_bool r 0 = false.
Proof.
  intros H. destruct (Qeq_bool r 0) eqn:E; [|done].
  apply Qeq_bool_iff in E. rewrite E in H. by apply Qlt_irrefl in H.
Qed.

Lemma exchange_rate_resolved cd rates m now :
  CountryDict.exchange_rate (_process_country_for_db cd rates m now)
  = resolved_rate cd rates.
Proof.
  unfold _process_country_for_db, resolved_rate. simpl.
  destruct (NormalizedCountry.currency_code cd) as [code|]; [|done].
  destruct (String.eqb code ""); simpl; [done|].
  by destruct (rates !! code).
Qed.

(** The estimate, by the rate that was resolved. *)
Lemma estimated_gdp_resolved cd rates m now r :
  resolved_rate cd rates = Some r →
  CountryDict.estimated_gdp (_process_country_for_db cd rates m now)
  = if negb (Qeq_bool r 0) && Qltb 0 r then
      let gdp := inject_Z (NormalizedCountry.population cd) * m / r in
      if Qltb 0 gdp then Some gdp else None
    else None.
Proof.
  unfold _process_country_for_db, resolved_rate. simpl.
  destruct (NormalizedCountry.currency_code cd) as [code|]; [|done].
  destruct (String.eqb code ""); simpl; [done|].
  intros ->. simpl. by destruct (negb (Qeq_bool r 0) && Qltb 0 r).
Qed.

Lemma estimated_gdp_unresolved cd rates m now :
  resolved_rate cd rates = None →
  CountryDict.estimated_gdp (_process_country_for_db cd rates m now) = None.
Proof.
  unfold _process_country_for_db, resolved_rate. simpl.
  destruct (NormalizedCountry.currency_code cd) as [code|]; [|done].
  destruct (String.eqb code ""); simpl; [done|].
  by intros ->.
Qed.

Lemma quotient_positive p m r : 0 < m → 0 < r → (0 < p * m / r ↔ 0 < p).
Proof.
  intros Hm Hr. split.
  - intros H.
    assert (Hpm : 0 < p * m).
    { assert (E : (p * m / r) * r == p * m) by (field; lra).
      rewrite <- E. by apply Qmult_lt_0_compat. }
    nra.
  - intros Hp. apply Qlt_shift_div_l; [done|]. nra.
Qed.

(** C3.  With a multiplier [m] drawn in [1000, 2000): when a positive
    rate [r] is resolved, estimated_gdp is [population * m / r] if that
    value is positive and null if it is not; when no rate is resolved,
    estimated_gdp is null; with a population of 1,000,000 and a rate of 2
    the estimate lies in [500,000,000, 1,000,000,000). *)
Theorem estimated_gdp_by_the_formula cd rates m now :
  1000 <= m → m < 2000 →
  let out := _process_country_for_db cd rates m now in
  let gdp r := inject_Z (NormalizedCountry.population cd) * m / r in
  (∀ r, resolved_rate cd rates = Some r → 0 < r →
        (0 < gdp r → CountryDict.estimated_gdp out = Some (gdp r))
        ∧ (gdp r <= 0 → CountryDict.estimated_gdp out = None))
  ∧ (resolved_rate cd rates = None → CountryDict.estimated_gdp out = None)
  ∧ (∀ r, resolved_rate cd rates = Some r → r == 2 →
          NormalizedCountry.population cd = 1000000%Z →
          ∃ g, CountryDict.estimated_gdp out = Some g
               ∧ 500000000 <= g ∧ g < 1000000000).
Proof.
  intros Hlo Hhi out gdp. subst out. split_and!.
  - intros r Hres Hr.
    rewrite (estimated_gdp_resolved cd rates m now r Hres).
    rewrite (positive_is_nonzero r Hr). rewrite (proj2 (Qltb_lt 0 r) Hr).
    simpl. fold (gdp r). split.
    + intros H. by rewrite (proj2 (Qltb_lt 0 (gdp r)) H).
    + intros H. by rewrite (proj2 (Qltb_ge 0 (gdp r)) H).
  - apply estimated_gdp_unresolved.
  - intros r Hres Hr2 Hpop.
    assert (Hr : 0 < r) by (rewrite Hr2; lra).
    rewrite (estimated_gdp_resolved cd rates m now r Hres).
    rewrite (positive_is_nonzero r Hr). rewrite (proj2 (Qltb_lt 0 r) Hr).
    simpl. rewrite Hpop.
    assert (E : inject_Z 1000000 * m / r == 500000 * m).
    { rewrite Hr2. unfold Qdiv. change (/ 2) with (1 # 2).
      change (inject_Z 1000000) with 1000000. ring. }
    assert (Hpos : 0 < inject_Z 1000000 * m / r) by (rewrite E; lra).
    rewrite (proj2 (Qltb_lt 0 _) Hpos).
    eexists. split; [done|]. rewrite E. split; lra.
Qed.

Lemma estimated_gdp_by_the_formula_witness :
  (0 < inject_Z 1000000 * 1500 / 2
   → CountryDict.estimated_gdp
       (_process_country_for_db Samples.nigeria Samples.rates 1500 100)
     = Some (inject_Z 1000000 * 1500 / 2))
  ∧ ∃ g, CountryDict.estimated_gdp
           (_process_country_for_db Samples.nigeria Samples.rates 1500 100)
         = Some g
         ∧ 500000000 <= g ∧ g < 1000000000.
Proof.
  assert (Hlo : 1000 <= 1500) by (vm_compute; discriminate).
  assert (Hhi : 1500 < 2000) by reflexivity.
  destruct (estimated_gdp_by_the_formula Samples.nigeria Samples.rates
              1500 100 Hlo Hhi) as (Hformula & _ & Hrange).
  split.
  - apply (Hformula 2); reflexivity.
  - apply (Hrange 2); reflexivity.
Defined.

(** The estimate of a row written from a processed dict. *)
Lemma written_row_estimate cd rates m now row :
  1000 <= m → m < 2000 →
  (∃ e, row = _update_country e (_process_country_for_db cd rates m now))
  ∨ (∃ i, row = Country.of_dict i (_process_country_for_db cd rates m now)) →
  (is_Some (Country.estimated_gdp row) ↔
     (0 < Country.population row)%Z
     ∧ ∃ r, resolved_rate cd rates = Some r ∧ 0 < r
            ∧ Country.exchange_rate row = Some r)
  ∧ (¬ ((0 < Country.population row)%Z
        ∧ ∃ r, Country.exchange_rate row = Some r ∧ 0 < r) →
     Country.estimated_gdp row = None).
Proof.
  intros Hlo Hhi Hrow.
  assert (Hm : 0 < m) by lra.
  assert (Country.estimated_gdp row
          = CountryDict.estimated_gdp (_process_country_for_db cd rates m now)
          ∧ Country.exchange_rate row = resolved_rate cd rates
          ∧ Country.population row = NormalizedCountry.population cd)
    as (Hg & Hx & Hp).
  { rewrite <- (exchange_rate_resolved cd rates m now).
    destruct Hrow as [[e ->]|[i ->]]; done. }
  rewrite Hg, Hx, Hp. clear Hg Hx Hp Hrow row.
  assert (Hiff : is_Some (CountryDict.estimated_gdp
                            (_process_country_for_db cd rates m now)) ↔
                 (0 < NormalizedCountry.population cd)%Z
                 ∧ ∃ r, resolved_rate cd rates = Some r ∧ 0 < r
                        ∧ resolved_rate cd rates = Some r).
  { destruct (resolved_rate cd rates) as [r|] eqn:Hres.
    - rewrite (estimated_gdp_resolved cd rates m now r Hres).
      destruct (Qltb 0 r) eqn:Hr.
      + apply Qltb_lt in Hr. rewrite (positive_is_nonzero r Hr). simpl.
        pose proof (quotient_positive
                      (inject_Z (NormalizedCountry.population cd)) m r Hm Hr)
          as Hq.
        assert (Hz : 0 < inject_Z (NormalizedCountry.population cd)
                     ↔ (0 < NormalizedCountry.population cd)%Z).
        { change 0 with (inject_Z 0). by rewrite <- Zlt_Qlt. }
        destruct (Qltb 0 _) eqn:Hgdp.
        * apply Qltb_lt in Hgdp. split; [|by eexists].
          intros _. split; [by apply Hz, Hq|]. by exists r.
        * apply Qltb_ge in Hgdp. split; [by intros [? ?]|].
          intros [Hpop _]. apply Hz, Hq in Hpop.
          by apply Qlt_not_le in Hpop.
      + rewrite andb_false_r. split; [by intros [? ?]|].
        intros (_ & r' & [= <-] & Hr' & _).
        apply Qltb_lt in Hr'. congruence.
    - rewrite (estimated_gdp_unresolved cd rates m now Hres).
      split; [by intros [? ?]|]. by intros (_ & r & ? & _). }
  split; [exact Hiff|].
  intros Hnot.
  destruct (CountryDict.estimated_gdp _) as [g|] eqn:Hg; [|done].
  exfalso. apply Hnot.
  destruct (proj1 Hiff (mk_is_Some _ _ eq_refl)) as (Hpop & r & Hres & Hr & _).
  split; [done|]. by exists r.
Qed.

(** C6.  After a successful refresh whose multipliers are drawn in
    [1000, 2000), every entry of the catalog is either a row the refresh
    did not write, or a row written from the processed dict of a record
    of the feed; such a row has a non-null estimated_gdp exactly when its
    population is greater than 0 and a positive exchange rate was resolved
    for its currency during this refresh, that rate being the entry's
    exchange_rate; in every other case its estimated_gdp is null. *)
Theorem estimated_gdp_needs_population_and_rate w st st' updated added k row :
  (∀ i, 1000 <= uniform w i ∧ uniform w i < 2000) →
  refresh_countries_data w st = (Return (updated, added), st') →
  rows st' !! k = Some row →
  rows st !! k = Some row
  ∨ ∃ feed rates j cd,
      fetch_countries w = Return feed
      ∧ fetch_exchange_rates w = Return rates
      ∧ feed !! j = Some cd
      ∧ written_from
          (_process_country_for_db cd rates (uniform w j) (utcnow w j)) row
      ∧ (is_Some (Country.estimated_gdp row) ↔
           (0 < Country.population row)%Z
           ∧ ∃ r, resolved_rate cd rates = Some r ∧ 0 < r
                  ∧ Country.exchange_rate row = Some r)
      ∧ (¬ ((0 < Country.population row)%Z
            ∧ ∃ r, Country.exchange_rate row = Some r ∧ 0 < r) →
         Country.estimated_gdp row = None).
Proof.
  intros Hdraw Hrun Hrow.
  destruct (fetch_countries w) as [feed|e] eqn:Hc;
    [|by unfold refresh_countries_data in Hrun; rewrite Hc in Hrun].
  destruct (fetch_exchange_rates w) as [rates|e] eqn:Hr;
    [|by unfold refresh_countries_data in Hrun; rewrite Hc, Hr in Hrun].
  rewrite (refresh_unfold w st feed rates Hc Hr) in Hrun.
  destruct (commit w st _) as [st1|e] eqn:Hcommit; [|done].
  injection Hrun as _ _ <-.
  apply commit_Return in Hcommit as (Hrows & _ & _).
  rewrite Hrows in Hrow.
  apply flushed_row_origin in Hrow as [Hold|(j & cd & i & Hj & ->)];
    [by left|right].
  exists feed, rates, j, cd.
  destruct (Hdraw j) as [Hlo Hhi].
  split_and!; [done|done|done|by exists i| |];
    apply (written_row_estimate cd rates (uniform w j) (utcnow w j) _ Hlo Hhi);
    right; by exists i.
Qed.

Lemma estimated_gdp_needs_population_and_rate_witness :
  rows Samples.store !! 0%nat = Some Samples.nigeria_updated
  ∨ ∃ feed rates j cd,
      fetch_countries (Samples.world [Samples.NIGERIA] true) = Return feed
      ∧ fetch_exchange_rates (Samples.world [Samples.NIGERIA] true)
        = Return rates
      ∧ feed !! j = Some cd
      ∧ written_from
          (_process_country_for_db cd rates
             (uniform (Samples.world [Samples.NIGERIA] true) j)
             (utcnow (Samples.world [Samples.NIGERIA] true) j))
          Samples.nigeria_updated
      ∧ (is_Some (Country.estimated_gdp Samples.nigeria_updated) ↔
           (0 < Country.population Samples.nigeria_updated)%Z
           ∧ ∃ r, resolved_rate cd rates = Some r ∧ 0 < r
                  ∧ Country.exchange_rate Samples.nigeria_updated = Some r)
      ∧ (¬ ((0 < Country.population Samples.nigeria_updated)%Z
            ∧ ∃ r, Country.exchange_rate Samples.nigeria_updated = Some r
                   ∧ 0 < r) →
         Country.estimated_gdp Samples.nigeria_updated = None).
Proof.
  eapply (estimated_gdp_needs_population_and_rate
            (Samples.world [Samples.NIGERIA] true) Samples.store _ _ _ 0%nat).
  - intros i. split; [vm_compute; discriminate|reflexivity].
  - vm_compute. reflexivity.
  - vm_compute. reflexivity.
Defined.

End EstimateProperties.

(** ** The source normalizer *)

Module NormalizerProperties.
Import CountriesAPIService Normalizer.
#[local] Open Scope list_scope.

Lemma first_currency_code_raises currencies :
  first_currency_code currencies = None ↔ unreadable currencies = true.
Proof.
  unfold first_currency_code, unreadable.
  destruct currencies as [|b|z|q|s|l|o]; simpl.
  - done.
  - destruct b; simpl; done.
  - destruct (negb (z =? 0)%Z); simpl; done.
  - destruct (negb (Qeq_bool q 0)); simpl; done.
  - destruct s as [|c s]; simpl; [done|]. done.
  - destruct l as [|x l]; simpl; done.
  - destruct o as [|x o]; simpl; done.
Qed.

Lemma process_dict_None d :
  process_dict d = None ↔ unreadable (currencies_of d) = true.
Proof.
  unfold process_dict. fold (currencies_of d).
  rewrite <- first_currency_code_raises.
  by destruct (first_currency_code (currencies_of d)).
Qed.

Lemma process_dict_name d p :
  process_dict d = Some p → name p = py_get d "name" (JStr "").
Proof.
  unfold process_dict.
  destruct (first_currency_code _); simpl; [|done]. by intros [= <-].
Qed.

Lemma process_all_dicts ds : ∀ acc,
  process_all (JObj <$> ds) acc = Return (acc ++ omap process_dict ds).
Proof.
  induction ds as [|d ds IH]; intros acc; simpl.
  - by rewrite app_nil_r.
  - destruct (process_dict d) as [p|]; rewrite IH; [|done].
    by rewrite <- app_assoc.
Qed.

(** C4, amended.  The normalizer does not reject a record for its name:
    a record whose name is absent is normalized with the empty string for
    name, and a name that is present, empty or not, is passed through.  A
    record is dropped exactly when reading its currencies raises, that
    is when [currencies] is truthy and neither a list nor a string; the
    processed list holds the normalized form of every other record, in
    the order of the feed. *)
Theorem normalizer_keeps_nameless_records (ds : list (list (string * json))) :
  fetch_countries (Body (JObj <$> ds)) = Return (omap process_dict ds)
  ∧ ∀ d,
      (rejected (JObj d) ↔ unreadable (currencies_of d) = true)
      ∧ (unreadable (currencies_of d) = false →
         ∃ p, _process_country_data (JObj d) = Return (Some p)
              ∧ name p = py_get d "name" (JStr "")
              ∧ (dict_get d "name" = None → name p = JStr "")
              ∧ (dict_get d "name" = Some (JStr "") → name p = JStr "")).
Proof.
  split; [unfold fetch_countries; by rewrite process_all_dicts|].
  intros d. split.
  - unfold rejected. simpl. rewrite <- process_dict_None.
    split; [by intros [= ->]|by intros ->].
  - intros Hread. simpl.
    destruct (process_dict d) as [p|] eqn:Hp.
    + exists p. pose proof (process_dict_name d p Hp) as Hn.
      split_and!; [done|done| |]; intros Hget; rewrite Hn;
        unfold py_get; by rewrite Hget.
    + apply process_dict_None in Hp. congruence.
Qed.

(** C4, as stated, fails: a record without a name is kept, with the empty
    string for name. *)
Lemma nameless_record_is_not_rejected :
  nameless no_name
  ∧ ¬ rejected (JObj no_name)
  ∧ fetch_countries (Body [JObj no_name; JObj ghana])
    = Return [ {| name := JStr ""; capital := JStr "Abuja"; region := JNull;
                  population := JInt 1000000; currency_code := JNull;
                  flag_url := JNull |};
               {| name := JStr "Ghana"; capital := JStr "Accra";
                  region := JNull; population := JInt 0;
                  currency_code := JStr "GHS"; flag_url := JNull |} ].
Proof.
  split_and!.
  - by left.
  - unfold rejected. simpl. discriminate.
  - reflexivity.
Qed.

Lemma currency_code_of_process_dict d :
  currency_code <$> process_dict d = first_currency_code (currencies_of d).
Proof.
  unfold process_dict. fold (currencies_of d).
  by destruct (first_currency_code (currencies_of d)).
Qed.

(** C5, amended.  The normalizer selects the code of the first currency
    descriptor of the list: the [code] field when the descriptor is a
    structured object, the string itself when it is a bare code.  An
    empty list or an absent field gives a null currency_code, and the
    list ["EUR", "USD"] gives "EUR".  A scalar string supplied instead of
    a list is indexed like a list: currency_code is its first character,
    so the string is taken as the code only when it is one character
    long. *)
Theorem first_currency_is_selected (d : list (string * json)) :
  (∀ s rest, currencies_of d = JList (JStr s :: rest) →
       currency_code <$> process_dict d = Some (JStr s))
  ∧ (∀ o rest, currencies_of d = JList (JObj o :: rest) →
       currency_code <$> process_dict d = Some (py_get o "code" JNull))
  ∧ (currencies_of d = JList [] →
       currency_code <$> process_dict d = Some JNull)
  ∧ (dict_get d "currencies" = None →
       currency_code <$> process_dict d = Some JNull)
  ∧ (currencies_of d = JList [JStr "EUR"; JStr "USD"] →
       currency_code <$> process_dict d = Some (JStr "EUR"))
  ∧ (∀ c tail, currencies_of d = JStr (String c tail) →
       currency_code <$> process_dict d = Some (JStr (String c ""))).
Proof.
  rewrite currency_code_of_process_dict.
  split_and!.
  - by intros s rest ->.
  - by intros o rest ->.
  - by intros ->.
  - intros H. unfold currencies_of, py_get. by rewrite H.
  - by intros ->.
  - by intros c tail ->.
Qed.

Example two_currencies_select_the_first :
  currency_code <$> process_dict two_currencies = Some (JStr "EUR").
Proof. reflexivity. Qed.

Example unreadable_currencies_drop_the_record :
  fetch_countries (Body [JObj numeric_currencies; JObj ghana])
  = Return (omap process_dict [ghana]).
Proof. reflexivity. Qed.

Example record_that_is_no_object_fails_the_fetch :
  fetch_countries (Body [JObj ghana; JStr "Togo"])
  = Raise "Unexpected error fetching countries: 'str' object has no attribute 'get'".
Proof. reflexivity. Qed.

(** C5, as stated, fails on the scalar: the code "EUR" supplied as a
    string instead of a list gives the currency_code "E". *)
Lemma scalar_code_is_cut_to_its_first_character :
  currencies_of scalar_currency = JStr "EUR"
  ∧ currency_code <$> process_dict scalar_currency = Some (JStr "E")
  ∧ currency_code <$> process_dict scalar_currency ≠ Some (JStr "EUR").
Proof. split_and!; [reflexivity|reflexivity|discriminate]. Qed.

(** C8, amended.  The normalizer applies no case conversion.  A
    currency_code that is not null is the code of the first descriptor of
    the currency list exactly as the source record spells it (or the
    first character of a scalar string); and [_process_country_for_db]
    hands the code on unchanged. *)
Theorem currency_code_is_passed_verbatim (d : list (string * json)) :
  (∀ p, process_dict d = Some p → currency_code p ≠ JNull →
        (∃ first rest, currencies_of d = JList (first :: rest)
                       ∧ currency_code p = descriptor_code first)
        ∨ (∃ c tail, currencies_of d = JStr (String c tail)
                     ∧ currency_code p = JStr (String c "")))
  ∧ (∀ first rest, currencies_of d = JList (first :: rest) →
        currency_code <$> process_dict d = Some (descriptor_code first))
  ∧ (∀ cd rates m now,
        CountryDict.currency_code
          (CountryService._process_country_for_db cd rates m now)
        = NormalizedCountry.currency_code cd).
Proof.
  split_and!.
  - intros p Hp Hnn.
    pose proof (currency_code_of_process_dict d) as H.
    rewrite Hp in H. simpl in H.
    unfold first_currency_code in H.
    destruct (currencies_of d) as [|b|z|q|s|l|o]; simpl in H.
    + by simplify_eq.
    + destruct b; by simplify_eq.
    + destruct (negb (z =? 0)%Z); by simplify_eq.
    + destruct (negb (Qeq_bool q 0)); by simplify_eq.
    + destruct s as [|c tail]; simpl in H; [by simplify_eq|].
      right. exists c, tail. by simplify_eq.
    + destruct l as [|first rest]; simpl in H; [by simplify_eq|].
      left. exists first, rest. by simplify_eq.
    + destruct o; by simplify_eq.
  - intros first rest H. rewrite currency_code_of_process_dict, H. done.
  - done.
Qed.

(** C8, as stated, fails: the code "eur" of the source record comes out
    as "eur", not as its uppercase form "EUR". *)
Lemma lowercase_code_stays_lowercase :
  currency_code <$> process_dict lowercase_currency = Some (JStr "eur")
  ∧ upper "eur" = "EUR"
  ∧ currency_code <$> process_dict lowercase_currency
    ≠ Some (JStr (upper "eur")).
Proof. split_and!; [reflexivity|reflexivity|discriminate]. Qed.

End NormalizerProperties.

(** ** The fetchers, beyond the normalizer *)

Module FetcherProperties.
Import CountriesAPIService Normalizer Vocabulary.
#[local] Open Scope list_scope.

Lemma process_all_objects pre : ∀ acc,
  Forall is_object pre →
  ∃ out, ∀ rest, process_all (pre ++ rest) acc = process_all rest out.
Proof.
  induction pre as [|x pre IH]; intros acc Hpre.
  - by exists acc.
  - apply Forall_cons in Hpre as [Hx Hpre].
    destruct x as [| | | | | |d]; try done. simpl.
    destruct (process_dict d) as [p|].
    + destruct (IH (acc ++ [p]) Hpre) as [out Hout]. by exists out.
    + destruct (IH acc Hpre) as [out Hout]. by exists out.
Qed.

(** X1.  One record that is not a JSON object fails the whole fetch: the
    records before it are processed, and the fetch raises the
    [AttributeError] of the first such record behind the prefix of the
    unexpected errors; the records after it are never looked at. *)
Theorem fetch_countries_fails_on_first_non_object pre v rest :
  Forall is_object pre →
  ¬ is_object v →
  fetch_countries (Body (pre ++ v :: rest)) = Raise (not_an_object_error v).
Proof.
  intros Hpre Hv. unfold fetch_countries.
  destruct (process_all_objects pre [] Hpre) as [out ->].
  destruct v; done.
Qed.

Lemma fetch_countries_fails_on_first_non_object_witness :
  fetch_countries (Body ([JObj ghana] ++ JNull :: [JStr "Togo"]))
  = Raise "Unexpected error fetching countries: 'NoneType' object has no attribute 'get'".
Proof.
  apply (fetch_countries_fails_on_first_non_object [JObj ghana] JNull
           [JStr "Togo"]).
  - repeat constructor.
  - intros [].
Defined.

(** X2.  The normalizer reads six keys of a raw record and nothing else:
    two records that agree on name, capital, region, population,
    currencies and flag are normalized alike, whatever else they hold. *)
Theorem normalizer_reads_six_keys d d' :
  (∀ k, k ∈ normalizer_keys → dict_get d k = dict_get d' k) →
  _process_country_data (JObj d) = _process_country_data (JObj d').
Proof.
  intros H. simpl. f_equal. unfold process_dict, py_get.
  rewrite !(H _) by (unfold normalizer_keys; set_solver).
  done.
Qed.

Lemma normalizer_reads_six_keys_witness :
  _process_country_data (JObj ghana)
  = _process_country_data
      (JObj (("alpha2Code", JStr "GH") :: ghana ++ [("independent", JBool true)])).
Proof.
  apply normalizer_reads_six_keys.
  intros k Hk. unfold normalizer_keys in Hk.
  repeat (apply elem_of_cons in Hk as [->|Hk]; [reflexivity|]).
  by apply elem_of_nil in Hk.
Defined.

Lemma upper_empty s s' : upper s = upper s' → String.eqb s "" = String.eqb s' "".
Proof. by destruct s, s'. Qed.

(** X3.  [get_rate_for_currency] looks the rate up under the uppercase
    form of the code it is given: two spellings of a code that differ
    only in case get the same answer, and no outcome of the fetch makes
    it raise (a failed fetch is answered by null). *)
Theorem get_rate_for_currency_ignores_case response s s' :
  upper s = upper s' →
  ExchangeRateService.get_rate_for_currency response s
  = ExchangeRateService.get_rate_for_currency response s'
  ∧ (∀ e, ExchangeRateService.fetch_exchange_rates response = Raise e →
          ExchangeRateService.get_rate_for_currency response s = JNull).
Proof.
  intros H. unfold ExchangeRateService.get_rate_for_currency. split.
  - destruct (ExchangeRateService.fetch_exchange_rates response); [|done].
    by rewrite (upper_empty s s' H), H.
  - by intros e ->.
Qed.

Lemma get_rate_for_currency_ignores_case_witness :
  ExchangeRateService.get_rate_for_currency
    (Body (JObj [("rates", JObj [("NGN", JFloat 1600)])])) "ngn"
  = ExchangeRateService.get_rate_for_currency
      (Body (JObj [("rates", JObj [("NGN", JFloat 1600)])])) "Ngn".
Proof.
  exact (proj1 (get_rate_for_currency_ignores_case
                  (Body (JObj [("rates", JObj [("NGN", JFloat 1600)])]))
                  "ngn" "Ngn" eq_refl)).
Defined.

End FetcherProperties.

(** ** More on the refresh *)

Module RefreshExtras.
Import CountryService Reconciliation Vocabulary EngineFacts RefreshProperties.
#[local] Open Scope list_scope.

(** A refresh that returns counters went through both fetches and the
    commit. *)
Lemma refresh_Return w st st' updated added :
  refresh_countries_data w st = (Return (updated, added), st') →
  ∃ feed rates,
    fetch_countries w = Return feed
    ∧ fetch_exchange_rates w = Return rates
    ∧ commit w st (loop_result w st rates feed).1.1 = Return st'
    ∧ updated = (loop_result w st rates feed).1.2
    ∧ added = (loop_result w st rates feed).2.
Proof.
  intros H.
  destruct (fetch_countries w) as [feed|e] eqn:Hc;
    [|by unfold refresh_countries_data in H; rewrite Hc in H].
  destruct (fetch_exchange_rates w) as [rates|e] eqn:Hr;
    [|by unfold refresh_countries_data in H; rewrite Hc, Hr in H].
  rewrite (refresh_unfold w st feed rates Hc Hr) in H.
  exists feed, rates.
  destruct (commit w st _) as [st1|e]; [|done].
  by simplify_eq.
Qed.

Lemma refresh_Raise w st msg st' :
  refresh_countries_data w st = (Raise msg, st') →
  st' = st ∧ ∃ e, msg = refresh_error e.
Proof.
  intros H.
  destruct (fetch_countries w) as [feed|e] eqn:Hc;
    [|unfold refresh_countries_data in H; rewrite Hc in H;
      simplify_eq; by eauto].
  destruct (fetch_exchange_rates w) as [rates|e] eqn:Hr;
    [|unfold refresh_countries_data in H; rewrite Hc, Hr in H;
      simplify_eq; by eauto].
  rewrite (refresh_unfold w st feed rates Hc Hr) in H.
  destruct (commit w st _) as [st1|e]; simplify_eq; by eauto.
Qed.

Lemma added_is_new w st rates feed :
  (loop_result w st rates feed).2
  = length (new (loop_result w st rates feed).1.1).
Proof.
  unfold loop_result. rewrite loop_new. simpl.
  by destruct (loop_counters (rows st) (processed_from w rates 0 feed)
                 (begin st) 0 0) as [_ ->].
Qed.

Lemma flushed_length w st rates feed :
  length (flushed st (loop_result w st rates feed).1.1)
  = length (rows st) + (loop_result w st rates feed).2.
Proof.
  rewrite added_is_new. unfold flushed.
  rewrite length_app, length_imap. f_equal.
  unfold loop_result. by rewrite loop_identity_length.
Qed.

(** X5.  A successful refresh grows the catalog by exactly the number of
    additions it reports: the number of rows, the total of
    [get_countries_stats] and the auto-increment counter all advance by
    [countries_added], and updates add nothing. *)
Theorem refresh_grows_by_added w st st' updated added :
  refresh_countries_data w st = (Return (updated, added), st') →
  length (rows st') = length (rows st) + added
  ∧ CountryReads.total_countries (CountryReads.get_countries_stats st')
    = CountryReads.total_countries (CountryReads.get_countries_stats st)
      + added
  ∧ next_id st' = next_id st + added.
Proof.
  intros H.
  apply refresh_Return in H as (feed & rates & _ & _ & Hcommit & _ & ->).
  apply commit_Return in Hcommit as (Hrows & Hnext & _).
  unfold CountryReads.get_countries_stats. simpl.
  rewrite Hrows, Hnext, flushed_length, <- added_is_new. done.
Qed.

Lemma refresh_grows_by_added_witness :
  ∃ st', refresh_countries_data
           (Samples.world [Samples.NIGERIA; Samples.nigeria; Samples.ghana] true)
           Samples.store = (Return (3, 0), st')
    ∧ length (rows st') = length (rows Samples.store) + 0
    ∧ CountryReads.total_countries (CountryReads.get_countries_stats st')
      = CountryReads.total_countries
          (CountryReads.get_countries_stats Samples.store) + 0
    ∧ next_id st' = next_id Samples.store + 0.
Proof.
  eexists. split; [vm_compute; reflexivity|].
  apply (refresh_grows_by_added
           (Samples.world [Samples.NIGERIA; Samples.nigeria; Samples.ghana] true)
           Samples.store _ 3 0).
  vm_compute. reflexivity.
Defined.






(** X9.  An empty feed is a refresh that touches nothing: with both
    fetches succeeding, no failure of the database and a table that
    satisfies its unique index, it returns the counters (0, 0) and the
    store is the one it started with. *)
Theorem empty_feed_changes_nothing w st rates :
  fetch_countries w = Return [] →
  fetch_exchange_rates w = Return rates →
  commit_failure w = None →
  NoDup (index_key w ∘ Country.name <$> rows st) →
  refresh_countries_data w st = (Return (0, 0), st).
Proof.
  intros Hc Hr Hf Hnd.
  rewrite (refresh_unfold w st [] rates Hc Hr).
  unfold loop_result, commit, flushed. simpl. rewrite Hf, app_nil_r.
  rewrite bool_decide_eq_true_2 by done.
  destruct st as [rs nid]. simpl. by rewrite Nat.add_0_r.
Qed.

Lemma empty_feed_changes_nothing_witness :
  refresh_countries_data (Samples.world [] false) Samples.store
  = (Return (0, 0), Samples.store).
Proof.
  apply (empty_feed_changes_nothing (Samples.world [] false) Samples.store
           Samples.rates); try reflexivity.
  apply (bool_decide_unpack _). vm_compute. exact I.
Defined.

Lemma processed_from_lookup w rates feed : ∀ i j cd,
  feed !! j = Some cd →
  processed_from w rates i feed !! j
  = Some (_process_country_for_db cd rates (uniform w (i + j)) (utcnow w (i + j))).
Proof.
  induction feed as [|c rest IH]; intros i j cd H; [done|].
  destruct j as [|j]; simpl in *.
  - simplify_eq. by rewrite Nat.add_0_r.
  - rewrite (IH (S i) j cd H). by rewrite Nat.add_succ_r.
Qed.

Lemma filter_none {A} (P : A → Prop) `{∀ x, Decision (P x)} (l : list A) :
  (∀ y, y ∈ l → ¬ P y) → filter P l = [].
Proof.
  induction l as [|x l IH]; intros Hno; [done|].
  rewrite filter_cons, decide_False by (apply Hno; left).
  apply IH. intros y Hy. apply Hno. by right.
Qed.

(** In a list without two elements of the same key, the elements a
    predicate selects, if they all have the key of [p], are [p] alone. *)
Lemma filter_unique {A B} (f : A → B) (P : A → Prop) `{∀ x, Decision (P x)}
    (l : list A) (p : A) :
  NoDup (f <$> l) → p ∈ l → P p →
  (∀ x, x ∈ l → P x → f x = f p) →
  filter P l = [p].
Proof.
  induction l as [|x l IH]; intros Hnd Hin Hp Hkey.
  - by apply elem_of_nil in Hin.
  - rewrite fmap_cons in Hnd. apply NoDup_cons in Hnd as [Hx Hnd].
    rewrite filter_cons.
    apply elem_of_cons in Hin as [->|Hin].
    + rewrite decide_True by done. f_equal. apply filter_none.
      intros y Hy HPy. apply Hx. rewrite <- (Hkey y); [|by right|done].
      by apply list_elem_of_fmap_2.
    + rewrite decide_False.
      * apply IH; [done|done|done|]. intros y Hy. apply Hkey. by right.
      * intros HPx. apply Hx. rewrite (Hkey x); [|by left|done].
        by apply list_elem_of_fmap_2.
Qed.

Lemma flushed_old_row w st rates feed i y :
  i < length (rows st) →
  flushed st (loop_result w st rates feed).1.1 !! i = Some y →
  ∃ e, rows st !! i = Some e
    ∧ y = latest (rows st) (processed_from w rates 0 feed) i e.
Proof.
  intros Hi Hy.
  destruct (lookup_lt_is_Some_2 _ _ Hi) as [e He].
  rewrite (flushed_old w st rates feed i e He) in Hy.
  exists e. by simplify_eq.
Qed.

(** X8.  Round trip of refresh and lookup, with the data.  After a
    successful refresh of a feed in which no two names are equal after
    case-folding, looking a country of the feed up by its name (in any
    spelling) gives an entry that carries the nine values of the dict
    processed from that very record: its name, capital, region,
    population, currency, the rate and the estimate resolved for it, its
    flag and the time it was processed. *)
Theorem refreshed_entry_carries_its_record
    w st st' updated added feed rates j cd n :
  refresh_countries_data w st = (Return (updated, added), st') →
  fetch_countries w = Return feed →
  fetch_exchange_rates w = Return rates →
  NoDup (feed_names feed) →
  feed !! j = Some cd →
  lower n = lower (NormalizedCountry.name cd) →
  ∃ c, get_country_by_name st' n = Some c
    ∧ written_from
        (_process_country_for_db cd rates (uniform w j) (utcnow w j)) c.
Proof.
  intros H Hc Hr Hfeed Hj Hn.
  apply refresh_Return in H as (feed' & rates' & Hc' & Hr' & Hcommit & _ & _).
  rewrite Hc in Hc'. rewrite Hr in Hr'. simplify_eq.
  apply commit_Return in Hcommit as (Hrows & _ & _).
  set (ds := processed_from w rates' 0 feed').
  set (p := _process_country_for_db cd rates' (uniform w j) (utcnow w j)).
  assert (Hp : ds !! j = Some p)
    by (unfold ds; by rewrite (processed_from_lookup w rates' feed' 0 j cd Hj)).
  assert (Hpin : p ∈ ds) by (by eapply list_elem_of_lookup_2).
  assert (Hds : NoDup (dict_names ds))
    by (unfold ds; by rewrite dict_names_processed).
  assert (Hpn : lower (CountryDict.name p) = lower n) by done.
  unfold get_country_by_name. rewrite Hrows.
  destruct (query_first (rows st) (CountryDict.name p)) as [k|] eqn:Q.
  - (* the record is a sighting of row k *)
    pose proof Q as Q'.
    apply query_first_Some in Q' as (e & Hk & He & Hfirst).
    assert (Hlast : filter (sights (rows st) k) ds = [p]).
    { apply (filter_unique (λ p, lower (CountryDict.name p))); [done..|].
      intros x _ Hx. apply query_first_Some in Hx as (e' & Hk' & He' & _).
      simplify_eq. by rewrite <- He', He. }
    exists (_update_country e p). split; [|by exists (Country.id e)].
    assert (list_find (same_name n)
              (flushed st (loop_result w st rates' feed').1.1)
            = Some (k, _update_country e p)) as ->; [|done].
    apply list_find_Some. split_and!.
    + rewrite (flushed_old w st rates' feed' k e Hk).
      unfold latest. fold ds. by rewrite Hlast.
    + done.
    + intros i y Hy Hi Hsame.
      apply flushed_old_row in Hy as (ei & Hei & ->);
        [|apply lookup_lt_Some in Hk; lia].
      unfold same_name in Hsame.
      rewrite (latest_folded_name _ _ _ _ Hei), <- Hpn in Hsame.
      by apply (Hfirst i ei Hei Hi).
  - (* the record is new *)
    assert (Hnew : new (loop_result w st rates' feed').1.1
                   = filter (unmatched (rows st)) ds)
      by (unfold loop_result; by rewrite loop_new).
    assert (Hlen : length (identity_map (loop_result w st rates' feed').1.1)
                   = length (rows st))
      by (unfold loop_result; by rewrite loop_identity_length).
    assert (Hpnew : p ∈ filter (unmatched (rows st)) ds)
      by (by apply list_elem_of_filter).
    apply list_elem_of_lookup_1 in Hpnew as [j' Hj'].
    exists (Country.of_dict (next_id st + j') p).
    split; [|by eexists].
    assert (list_find (same_name n)
              (flushed st (loop_result w st rates' feed').1.1)
            = Some (length (rows st) + j', Country.of_dict (next_id st + j') p))
      as ->; [|done].
    apply list_find_Some. split_and!.
    + unfold flushed. rewrite lookup_app_r by lia.
      rewrite Hlen, Nat.add_comm, Nat.add_sub, list_lookup_imap, Hnew, Hj'.
      done.
    + done.
    + intros i y Hy Hi Hsame. unfold same_name in Hsame.
      destruct (decide (i < length (rows st))) as [Hlt|Hge].
      * apply flushed_old_row in Hy as (ei & Hei & ->); [|done].
        rewrite (latest_folded_name _ _ _ _ Hei), <- Hpn in Hsame.
        apply (proj1 (query_first_None _ _) Q ei); [|done].
        by eapply list_elem_of_lookup_2.
      * unfold flushed in Hy. rewrite lookup_app_r in Hy by lia.
        rewrite Hlen, list_lookup_imap, Hnew in Hy.
        destruct (filter _ ds !! (i - length (rows st))) as [q|] eqn:Hq;
          simpl in Hy; [|done].
        injection Hy as <-. simpl in Hsame.
        assert (Hnd : NoDup (dict_names (filter (unmatched (rows st)) ds))).
        { eapply sublist_NoDup; [exact Hds|].
          unfold dict_names. apply fmap_sublist, sublist_filter. }
        assert (i - length (rows st) = j'); [|lia].
        eapply (NoDup_lookup _ _ _ _ Hnd); unfold dict_names;
          rewrite list_lookup_fmap.
        -- rewrite Hq. simpl. by rewrite Hsame, <- Hpn.
        -- by rewrite Hj'.
Qed.

Lemma refreshed_entry_carries_its_record_witness :
  ∃ c, get_country_by_name
         (refresh_countries_data
            (Samples.world [Samples.NIGERIA; Samples.ghana] true)
            Samples.store).2 "nigeria" = Some c
    ∧ written_from
        (_process_country_for_db Samples.NIGERIA Samples.rates
           (uniform (Samples.world [Samples.NIGERIA; Samples.ghana] true) 0)
           (utcnow (Samples.world [Samples.NIGERIA; Samples.ghana] true) 0))
        c.
Proof.
  eapply (refreshed_entry_carries_its_record
            (Samples.world [Samples.NIGERIA; Samples.ghana] true)
            Samples.store _ 2 0 [Samples.NIGERIA; Samples.ghana]
            Samples.rates 0 Samples.NIGERIA "nigeria").
  - vm_compute. reflexivity.
  - reflexivity.
  - reflexivity.
  - apply (bool_decide_unpack _). vm_compute. exact I.
  - reflexivity.
  - reflexivity.
Defined.

End RefreshExtras.

(** ** More on the processed dict *)

Module EstimateExtras.
Import CountryService Reconciliation EstimateProperties.
#[local] Open Scope Q_scope.

(** X4.  Whatever the multiplier, the estimate of a processed country is
    null or positive, and it is non-null only behind a positive rate.
    The rate itself is stored as the table has it: a resolved rate that
    is zero or negative is kept as exchange_rate, and the estimate is
    then null. *)
Theorem estimate_is_null_or_positive cd rates m now :
  (∀ g, CountryDict.estimated_gdp (_process_country_for_db cd rates m now)
        = Some g →
        0 < g ∧ ∃ r, resolved_rate cd rates = Some r ∧ 0 < r)
  ∧ (∀ r, resolved_rate cd rates = Some r → r <= 0 →
          CountryDict.exchange_rate (_process_country_for_db cd rates m now)
          = Some r
          ∧ CountryDict.estimated_gdp (_process_country_for_db cd rates m now)
            = None).
Proof.
  split.
  - intros g Hg.
    destruct (resolved_rate cd rates) as [r|] eqn:Hres;
      [|by rewrite (estimated_gdp_unresolved cd rates m now Hres) in Hg].
    rewrite (estimated_gdp_resolved cd rates m now r Hres) in Hg.
    destruct (Qltb 0 r) eqn:Hr; [|by rewrite andb_false_r in Hg].
    apply Qltb_lt in Hr. rewrite (positive_is_nonzero r Hr) in Hg.
    simpl in Hg.
    destruct (Qltb 0 _) eqn:Hpos; [|done].
    apply Qltb_lt in Hpos. injection Hg as <-.
    split; [done|]. by exists r.
  - intros r Hres Hr. rewrite exchange_rate_resolved.
    split; [done|].
    rewrite (estimated_gdp_resolved cd rates m now r Hres).
    rewrite (proj2 (Qltb_ge 0 r) Hr). by rewrite andb_false_r.
Qed.

End EstimateExtras.

(** ** Lookup and deletion by name *)

Module DeleteProperties.
Import CountryService Reconciliation EngineFacts.
#[local] Open Scope list_scope.

Lemma find_after_delete {A} (P : A → Prop) `{∀ x, Decision (P x)}
    (l : list A) : ∀ k x,
  l !! k = Some x → ¬ P x →
  snd <$> list_find P (delete k l) = snd <$> list_find P l.
Proof.
  induction l as [|y l IH]; intros k x Hk Hx; [done|].
  destruct k as [|k]; simpl in *.
  - simplify_eq. rewrite decide_False by done.
    by destruct (list_find P l) as [[? ?]|].
  - destruct (decide (P y)); [done|].
    specialize (IH k x Hk Hx).
    destruct (list_find P (delete k l)) as [[? ?]|],
             (list_find P l) as [[? ?]|]; simpl in *; by simplify_eq.
Qed.

(** X10.  [delete_country_by_name] removes the entry that
    [get_country_by_name] finds, and nothing else: it answers false and
    leaves the store alone exactly when the lookup finds nothing;
    otherwise the catalog loses one row, the one found, and every entry
    under another case-folded name is still found as before. *)
Theorem delete_removes_the_entry_found st n :
  match get_country_by_name st n with
  | None => delete_country_by_name st n = (false, st)
  | Some c =>
      ∃ k st', delete_country_by_name st n = (true, st')
        ∧ rows st !! k = Some c
        ∧ rows st' = delete k (rows st)
        ∧ S (length (rows st')) = length (rows st)
        ∧ ∀ m, lower m ≠ lower n →
               get_country_by_name st' m = get_country_by_name st m
  end.
Proof.
  unfold get_country_by_name, delete_country_by_name, query_first.
  destruct (list_find (same_name n) (rows st)) as [[k c]|] eqn:F; simpl;
    [|done].
  apply list_find_Some in F as (Hk & Hc & _).
  exists k. eexists. split_and!; [done|done|done| |].
  - simpl. rewrite length_delete by (by eexists).
    apply lookup_lt_Some in Hk. lia.
  - intros m Hm. simpl. apply (find_after_delete _ _ k c Hk).
    unfold same_name in *. congruence.
Qed.

(** X11.  Under the identity invariant of the catalog (no two names
    equal after case-folding), a name that was deleted is gone: the
    lookup finds nothing under any spelling of it, a second delete answers
    false and changes nothing, and the routes DELETE and GET answer 404. *)
Theorem deleted_name_is_gone st n n' :
  NoDup (folded_names (rows st)) →
  lower n' = lower n →
  let st' := (delete_country_by_name st n).2 in
  get_country_by_name st' n' = None
  ∧ delete_country_by_name st' n' = (false, st')
  ∧ Router.get_country_by_name st' n'
    = Router.Failed (Router.CountryNotFoundError n')
  ∧ Router.delete_country st' n'
    = (Router.Failed (Router.CountryNotFoundError n'), st').
Proof.
  intros Hnd Hn st'.
  assert (Hgone : list_find (same_name n') (rows st') = None).
  { apply list_find_None, Forall_forall. intros c Hc Hsame.
    unfold same_name in Hsame. rewrite Hn in Hsame.
    subst st'. unfold delete_country_by_name in Hc.
    destruct (query_first (rows st) n) as [k|] eqn:Q; simpl in Hc.
    - apply query_first_Some in Q as (e & Hk & He & _).
      apply list_elem_of_lookup_1 in Hc as [i Hi].
      rewrite list_lookup_delete in Hi.
      unfold folded_names in Hnd.
      destruct (decide (i < k)).
      + assert (i = k); [|lia].
        apply (NoDup_lookup _ i k (lower n) Hnd);
          rewrite list_lookup_fmap; [rewrite Hi|rewrite Hk]; simpl;
          by f_equal.
      + assert (S i = k); [|lia].
        apply (NoDup_lookup _ (S i) k (lower n) Hnd);
          rewrite list_lookup_fmap; [rewrite Hi|rewrite Hk]; simpl;
          by f_equal.
    - apply (proj1 (query_first_None _ _) Q c Hc Hsame). }
  unfold Router.delete_country, Router.get_country_by_name,
    delete_country_by_name, get_country_by_name, query_first.
  rewrite Hgone. done.
Qed.

Lemma deleted_name_is_gone_witness :
  get_country_by_name (delete_country_by_name Samples.store "NIGERIA").2
    "nigeria" = None
  ∧ delete_country_by_name
      (delete_country_by_name Samples.store "NIGERIA").2 "nigeria"
    = (false, (delete_country_by_name Samples.store "NIGERIA").2)
  ∧ Router.get_country_by_name
      (delete_country_by_name Samples.store "NIGERIA").2 "nigeria"
    = Router.Failed (Router.CountryNotFoundError "nigeria")
  ∧ Router.delete_country
      (delete_country_by_name Samples.store "NIGERIA").2 "nigeria"
    = (Router.Failed (Router.CountryNotFoundError "nigeria"),
       (delete_country_by_name Samples.store "NIGERIA").2).
Proof.
  apply (deleted_name_is_gone Samples.store "NIGERIA" "nigeria");
    [|reflexivity].
  apply (bool_decide_unpack _). vm_compute. exact I.
Defined.

End DeleteProperties.

(** ** The read operations *)

Module ReadProperties.
Import CountryService CountryReads Vocabulary.
#[local] Open Scope list_scope.

#[local] Instance by_population_desc_total : Total by_population_desc.
Proof. intros a b. unfold by_population_desc. lia. Qed.
#[local] Instance by_population_desc_trans : Transitive by_population_desc.
Proof. intros a b c. unfold by_population_desc. lia. Qed.
#[local] Instance by_population_asc_total : Total by_population_asc.
Proof. intros a b. unfold by_population_asc. lia. Qed.
#[local] Instance by_population_asc_trans : Transitive by_population_asc.
Proof. intros a b c. unfold by_population_asc. lia. Qed.

Lemma gdp_le_total a b : gdp_le a b = true ∨ gdp_le b a = true.
Proof.
  destruct a as [x|], b as [y|]; simpl; auto.
  rewrite !Qle_bool_iff. destruct (Qlt_le_dec x y) as [H|H]; [left|right].
  - by apply Qlt_le_weak.
  - done.
Qed.

Lemma gdp_le_trans a b c :
  gdp_le a b = true → gdp_le b c = true → gdp_le a c = true.
Proof.
  destruct a as [x|], b as [y|], c as [z|]; simpl; try done.
  rewrite !Qle_bool_iff. apply Qle_trans.
Qed.

#[local] Instance by_gdp_desc_total : Total by_gdp_desc.
Proof. intros a b. unfold by_gdp_desc. apply gdp_le_total. Qed.
#[local] Instance by_gdp_desc_trans : Transitive by_gdp_desc.
Proof. intros a b c H1 H2. unfold by_gdp_desc in *. by eapply gdp_le_trans. Qed.
#[local] Instance by_gdp_asc_total : Total by_gdp_asc.
Proof. intros a b. unfold by_gdp_asc. apply gdp_le_total. Qed.
#[local] Instance by_gdp_asc_trans : Transitive by_gdp_asc.
Proof. intros a b c H1 H2. unfold by_gdp_asc in *. by eapply gdp_le_trans. Qed.

Lemma order_by_Permutation name_le sort q : order_by name_le sort q ≡ₚ q.
Proof.
  unfold order_by. destruct sort as [s|]; [|done].
  repeat (case_match; [done || apply merge_sort_Permutation|]).
  done.
Qed.

Lemma where_region_spec region q c :
  c ∈ where_region region q ↔
  c ∈ q ∧ ∀ r, region = Some r → r ≠ "" → region_is r c.
Proof.
  unfold where_region. destruct region as [r|].
  - destruct (String.eqb_spec r "") as [->|Hne].
    + split; [intros ?; split; [done|]; by intros ? [= <-]|by intros [? _]].
    + rewrite list_elem_of_filter. split.
      * intros [? ?]. split; [done|]. by intros ? [= <-].
      * intros [? H]. split; [|done]. by apply H.
  - split; [by intros ?|by intros [? _]].
Qed.

Lemma where_currency_spec currency q c :
  c ∈ where_currency currency q ↔
  c ∈ q ∧ ∀ cur, currency = Some cur → cur ≠ "" → currency_is cur c.
Proof.
  unfold where_currency. destruct currency as [r|].
  - destruct (String.eqb_spec r "") as [->|Hne].
    + split; [intros ?; split; [done|]; by intros ? [= <-]|by intros [? _]].
    + rewrite list_elem_of_filter. split.
      * intros [? ?]. split; [done|]. by intros ? [= <-].
      * intros [? H]. split; [|done]. by apply H.
  - split; [by intros ?|by intros [? _]].
Qed.

(** X12.  [get_countries] returns stored entries that pass its filters:
    every row of the answer is a row of the table; when a region is
    given (and is not the empty string) its region equals it after
    case-folding, and the same for the currency.  A row whose region or
    currency is NULL never passes the corresponding filter. *)
Theorem get_countries_respects_filters
    name_le st region currency sort skip limit c :
  c ∈ get_countries name_le st region currency sort skip limit →
  c ∈ rows st
  ∧ (∀ r, region = Some r → r ≠ "" →
          ∃ r', Country.region c = Some r' ∧ lower r' = lower r)
  ∧ (∀ cur, currency = Some cur → cur ≠ "" →
          ∃ cur', Country.currency_code c = Some cur'
                  ∧ lower cur' = lower cur).
Proof.
  unfold get_countries. intros Hc.
  assert (Hin : c ∈ order_by name_le sort
                      (where_currency currency (where_region region (rows st)))).
  { eapply elem_of_sublist; [exact Hc|].
    etrans; [apply sublist_take|apply sublist_drop]. }
  rewrite order_by_Permutation in Hin.
  apply where_currency_spec in Hin as [Hin Hcur].
  apply where_region_spec in Hin as [Hin Hreg].
  split_and!; [done| |].
  - intros r Hr Hne. specialize (Hreg r Hr Hne). unfold region_is in Hreg.
    destruct (Country.region c) as [r'|]; simpl in Hreg; [|done].
    exists r'. split; [done|]. by injection Hreg.
  - intros cur Hr Hne. specialize (Hcur cur Hr Hne).
    unfold currency_is in Hcur.
    destruct (Country.currency_code c) as [r'|]; simpl in Hcur; [|done].
    exists r'. split; [done|]. by injection Hcur.
Qed.

Lemma get_countries_respects_filters_witness :
  Samples.ghana_row
  ∈ get_countries String.leb Samples.store (Some "AFRICA") None
      (Some "name_asc") 0 1
  ∧ Samples.ghana_row ∈ rows Samples.store
  ∧ ∃ r', Country.region Samples.ghana_row = Some r'
          ∧ lower r' = lower "AFRICA".
Proof.
  assert (H : Samples.ghana_row
              ∈ get_countries String.leb Samples.store (Some "AFRICA") None
                  (Some "name_asc") 0 1) by (vm_compute; left).
  split; [exact H|].
  destruct (get_countries_respects_filters String.leb Samples.store
              (Some "AFRICA") None (Some "name_asc") 0 1 Samples.ghana_row H)
    as (Hin & Hreg & _).
  split; [exact Hin|]. by apply Hreg.
Defined.

(** X13.  A page that is long enough holds every matching entry once:
    with no offset and a limit that is at least the size of the table,
    the answer of [get_countries] is, up to the order, the rows of the
    table that pass the filters, whatever the sort key. *)
Theorem get_countries_full_page name_le st region currency sort limit :
  (length (rows st) ≤ limit)%nat →
  get_countries name_le st region currency sort 0 limit
  ≡ₚ where_currency currency (where_region region (rows st)).
Proof.
  intros Hlimit. unfold get_countries. rewrite drop_0.
  rewrite take_ge; [apply order_by_Permutation|].
  rewrite order_by_Permutation.
  assert (Hsub : where_currency currency (where_region region (rows st))
                 `sublist_of` rows st).
  { unfold where_currency, where_region.
    destruct currency as [cur|], region as [r|];
      repeat case_match; try done;
      repeat (etrans; [apply sublist_filter|]); done. }
  apply sublist_length in Hsub. lia.
Qed.

Lemma get_countries_full_page_witness :
  get_countries String.leb Samples.store (Some "africa") (Some "ngn")
    (Some "gdp_desc") 0 1000
  ≡ₚ where_currency (Some "ngn") (where_region (Some "africa")
                                    (rows Samples.store)).
Proof.
  apply (get_countries_full_page String.leb Samples.store). simpl. lia.
Defined.


(** X15.  The sort key of [get_countries] is read case-insensitively,
    and a key that is none of the six known ones is ignored: the answer
    is then the one of the query without a sort, in the order of the
    table. *)
Theorem get_countries_sort_key name_le st region currency skip limit s :
  (∀ s', lower s' = lower s →
         get_countries name_le st region currency (Some s') skip limit
         = get_countries name_le st region currency (Some s) skip limit)
  ∧ (lower s ∉ sort_keys →
     get_countries name_le st region currency (Some s) skip limit
     = get_countries name_le st region currency None skip limit).
Proof.
  split.
  - intros s' H. unfold get_countries, order_by. rewrite H.
    assert (String.eqb s' "" = String.eqb s "") as ->; [|done].
    destruct s, s'; done.
  - intros H. unfold get_countries, order_by, sort_keys in *.
    destruct (String.eqb s ""); [done|].
    repeat match goal with
           | |- context [String.eqb (lower s) ?k] =>
               destruct (String.eqb_spec (lower s) k) as [E|_];
               [exfalso; apply H; rewrite E; set_solver|]
           end.
    done.
Qed.

Example unknown_sort_key_is_ignored :
  get_countries String.leb Samples.store None None (Some "population") 0 10
  = rows Samples.store.
Proof. reflexivity. Qed.

Lemma order_by_lower name_le s s' q :
  lower s' = lower s →
  order_by name_le (Some s') q = order_by name_le (Some s) q.
Proof.
  intros H. unfold order_by. rewrite H.
  assert (String.eqb s' "" = String.eqb s "") as ->; [|done].
  destruct s, s'; done.
Qed.

Lemma order_by_key name_le s q :
  (lower s = "population_desc" →
   order_by name_le (Some s) q = merge_sort by_population_desc q)
  ∧ (lower s = "population_asc" →
     order_by name_le (Some s) q = merge_sort by_population_asc q)
  ∧ (lower s = "gdp_desc" →
     order_by name_le (Some s) q = merge_sort by_gdp_desc q)
  ∧ (lower s = "gdp_asc" →
     order_by name_le (Some s) q = merge_sort by_gdp_asc q)
  ∧ (lower s = "name_asc" →
     order_by name_le (Some s) q = merge_sort (by_name_asc name_le) q)
  ∧ (lower s = "name_desc" →
     order_by name_le (Some s) q = merge_sort (by_name_desc name_le) q).
Proof.
  split_and!; intros H.
  - by rewrite (order_by_lower name_le "population_desc" s) by (by rewrite H).
  - by rewrite (order_by_lower name_le "population_asc" s) by (by rewrite H).
  - by rewrite (order_by_lower name_le "gdp_desc" s) by (by rewrite H).
  - by rewrite (order_by_lower name_le "gdp_asc" s) by (by rewrite H).
  - by rewrite (order_by_lower name_le "name_asc" s) by (by rewrite H).
  - by rewrite (order_by_lower name_le "name_desc" s) by (by rewrite H).
Qed.

Lemma StronglySorted_page {A} (R : relation A) (l : list A) skip limit :
  StronglySorted R l → StronglySorted R (take limit (drop skip l)).
Proof.
  intros H.
  rewrite <- (take_drop skip l) in H.
  apply StronglySorted_app_1_r in H.
  rewrite <- (take_drop limit (drop skip l)) in H.
  by apply StronglySorted_app_1_l in H.
Qed.

(** X16.  Sorted answers.  With the key population_desc (in any case)
    the populations of the answer of [get_countries] never increase from
    one row to any later row, with population_asc they never decrease;
    with gdp_desc and gdp_asc the same holds of estimated_gdp, the
    entries without an estimate coming last for gdp_desc and first for
    gdp_asc. *)
Theorem get_countries_sorted name_le st region currency skip limit s :
  (lower s = "population_desc" →
   StronglySorted by_population_desc
     (get_countries name_le st region currency (Some s) skip limit))
  ∧ (lower s = "population_asc" →
     StronglySorted by_population_asc
       (get_countries name_le st region currency (Some s) skip limit))
  ∧ (lower s = "gdp_desc" →
     StronglySorted by_gdp_desc
       (get_countries name_le st region currency (Some s) skip limit))
  ∧ (lower s = "gdp_asc" →
     StronglySorted by_gdp_asc
       (get_countries name_le st region currency (Some s) skip limit)).
Proof.
  destruct (order_by_key name_le s
              (where_currency currency (where_region region (rows st))))
    as (Hpd & Hpa & Hgd & Hga & _ & _).
  split_and!; intros H; unfold get_countries;
    [rewrite (Hpd H)|rewrite (Hpa H)|rewrite (Hgd H)|rewrite (Hga H)];
    apply StronglySorted_page, StronglySorted_merge_sort; apply _.
Qed.

Lemma Sorted_page {A} (R : relation A) (l : list A) skip limit :
  Sorted R l → Sorted R (take limit (drop skip l)).
Proof.
  intros H.
  assert (Hdrop : ∀ l n, Sorted R l → Sorted R (drop n l)).
  { clear. intros l n. revert l. induction n as [|n IH]; intros l H; [done|].
    destruct l as [|x l]; [done|]. simpl. apply IH.
    by apply Sorted_inv in H as [? _]. }
  assert (Htake : ∀ l n, Sorted R l → Sorted R (take n l)).
  { clear. intros l. induction l as [|x l IH]; intros n H.
    - by rewrite take_nil.
    - destruct n as [|n]; [constructor|]. simpl.
      apply Sorted_inv in H as [Hl Hx]. constructor; [by apply IH|].
      destruct l as [|y l]; [by rewrite take_nil|].
      destruct n as [|n]; [constructor|]. simpl.
      apply HdRel_inv in Hx. by constructor. }
  by apply Htake, Hdrop.
Qed.

(** X17.  Sorting by name follows the order of the collation: when that
    order is total, each row of the answer for name_asc is at or below
    the next one in it, and for name_desc at or above. *)
Theorem get_countries_sorted_by_name
    name_le st region currency skip limit s :
  (∀ a b, name_le a b = true ∨ name_le b a = true) →
  (lower s = "name_asc" →
   Sorted (by_name_asc name_le)
     (get_countries name_le st region currency (Some s) skip limit))
  ∧ (lower s = "name_desc" →
     Sorted (by_name_desc name_le)
       (get_countries name_le st region currency (Some s) skip limit)).
Proof.
  intros Htotal.
  assert (Total (by_name_asc name_le)) by (intros a b; apply Htotal).
  assert (Total (by_name_desc name_le)) by (intros a b; apply Htotal).
  destruct (order_by_key name_le s
              (where_currency currency (where_region region (rows st))))
    as (_ & _ & _ & _ & Hna & Hnd).
  split; intros H'; unfold get_countries;
    [rewrite (Hna H')|rewrite (Hnd H')];
    apply Sorted_page, Sorted_merge_sort; apply _.
Qed.

Lemma get_countries_sorted_by_name_witness :
  Sorted (by_name_asc String.leb)
    (get_countries String.leb Samples.store None None (Some "NAME_ASC") 0 10)
  ∧ Country.name
    <$> get_countries String.leb Samples.store None None (Some "NAME_ASC") 0 10
    = ["Ghana"; "Nigeria"].
Proof.
  split; [|reflexivity].
  exact (proj1 (get_countries_sorted_by_name String.leb Samples.store None
                  None 0 10 "NAME_ASC" String.leb_total) eq_refl).
Defined.

(** X18.  [get_top_countries_by_gdp] is a top-N query: it returns at
    most [limit] entries, all of them stored entries with an estimate,
    ordered from the largest estimate down; the entries with an estimate
    that it leaves out are all at or below every entry it returns; and
    when [limit] is at least the number of entries with an estimate, it
    returns them all. *)
Theorem top_countries_are_the_largest st limit :
  (length (get_top_countries_by_gdp st limit) ≤ limit)%nat
  ∧ StronglySorted by_gdp_desc (get_top_countries_by_gdp st limit)
  ∧ ∃ rest,
      get_top_countries_by_gdp st limit ++ rest ≡ₚ filter has_gdp (rows st)
      ∧ (∀ c, c ∈ get_top_countries_by_gdp st limit →
              c ∈ rows st ∧ is_Some (Country.estimated_gdp c))
      ∧ (∀ c c', c ∈ get_top_countries_by_gdp st limit → c' ∈ rest →
                 by_gdp_desc c c')
      ∧ ((length (filter has_gdp (rows st)) ≤ limit)%nat → rest = []).
Proof.
  unfold get_top_countries_by_gdp.
  set (sorted := merge_sort by_gdp_desc (filter has_gdp (rows st))).
  assert (Hsorted : StronglySorted by_gdp_desc sorted)
    by (apply StronglySorted_merge_sort; apply _).
  assert (Hperm : sorted ≡ₚ filter has_gdp (rows st))
    by apply merge_sort_Permutation.
  split_and!.
  - rewrite length_take. lia.
  - rewrite <- (take_drop limit sorted) in Hsorted.
    by apply StronglySorted_app_1_l in Hsorted.
  - exists (drop limit sorted). split_and!.
    + by rewrite take_drop.
    + intros c Hc.
      assert (c ∈ sorted) as Hin
        by (eapply elem_of_sublist; [exact Hc|apply sublist_take]).
      rewrite Hperm in Hin. by apply list_elem_of_filter in Hin as [? ?].
    + intros c c' Hc Hc'.
      rewrite <- (take_drop limit sorted) in Hsorted.
      by eapply StronglySorted_app_1_elem_of.
    + intros Hlen. apply drop_ge. by rewrite Hperm.
Qed.

Lemma sql_max_spec l :
  match sql_max l with
  | None => l = []
  | Some m => m ∈ l ∧ ∀ x, x ∈ l → (x <= m)%Z
  end.
Proof.
  induction l as [|x l IH]; [done|]. simpl.
  destruct (sql_max l) as [m|].
  - destruct IH as [Hm Hmax]. split.
    + destruct (Z.max_spec x m) as [[_ ->]|[_ ->]]; [by right|by left].
    + intros y [->|Hy]%elem_of_cons; [lia|]. specialize (Hmax y Hy). lia.
  - subst l. split; [by left|].
    intros y [->|Hy]%elem_of_cons; [lia|]. by apply elem_of_nil in Hy.
Qed.

(** X19.  [get_countries_stats] reports the size of the catalog and its
    most recent refresh time: the time is null exactly when the catalog
    is empty; otherwise it is the last_refreshed_at of some entry and no
    entry has a later one. *)
Theorem stats_report_the_latest_refresh st :
  total_countries (get_countries_stats st) = length (rows st)
  ∧ (last_refreshed_at (get_countries_stats st) = None ↔ rows st = [])
  ∧ ∀ t, last_refreshed_at (get_countries_stats st) = Some t →
         (∃ c, c ∈ rows st ∧ Country.last_refreshed_at c = t)
         ∧ ∀ c, c ∈ rows st → (Country.last_refreshed_at c <= t)%Z.
Proof.
  unfold get_countries_stats. simpl.
  pose proof (sql_max_spec (Country.last_refreshed_at <$> rows st)) as H.
  destruct (sql_max _) as [m|].
  - destruct H as [Hm Hmax]. split_and!; [done| |].
    + split; [done|]. intros E. rewrite E in Hm. by apply elem_of_nil in Hm.
    + intros t [= <-]. split.
      * apply list_elem_of_fmap in Hm as (c & -> & Hc). by exists c.
      * intros c Hc. apply Hmax. by apply list_elem_of_fmap_2.
  - apply fmap_nil_inv in H. split_and!; done.
Qed.

End ReadProperties.

(** ** The handler of the refresh route *)

Module RouterProperties.
Import CountryService Router RefreshExtras.

Lemma lower_app a b : lower (a ++ b) = lower a ++ lower b.
Proof. induction a as [|c a IH]; simpl; [done|]. by rewrite IH. Qed.

Lemma refresh_error_names_countries e :
  contains "countries" (lower (refresh_error e)) = true.
Proof. unfold refresh_error. rewrite lower_app. reflexivity. Qed.

Lemma timed_out_is_no_timeout :
  contains "Could not fetch data"
    (refresh_error "Countries API request timed out") = false
  ∧ contains "timeout"
      (lower (refresh_error "Countries API request timed out")) = false
  ∧ contains "Could not fetch data"
      (refresh_error "Exchange rates API request timed out") = false
  ∧ contains "timeout"
      (lower (refresh_error "Exchange rates API request timed out")) = false.
Proof. split_and!; reflexivity. Qed.

(** X20.  What the refresh route makes of an error of
    [refresh_countries_data].  Every such error carries the prefix of the
    refresh, which names the countries: the handler answers 503 for the
    Countries API or 500, and never 503 for the Exchange Rates API, also
    when it is the rate fetch that failed.  A time-out of either fetcher
    is reported as timed out, which the handler's test for the word
    timeout does not match: it is answered 500. *)
Theorem refresh_route_never_blames_the_rates w st msg st' :
  refresh_countries_data w st = (Raise msg, st') →
  (refresh_countries_except msg = ExternalServiceError "Countries API"
   ∨ refresh_countries_except msg
     = InternalServerError ("Failed to refresh countries: " ++ msg))
  ∧ refresh_countries_except msg ≠ ExternalServiceError "Exchange Rates API"
  ∧ (∀ m, CountriesAPIService.fetch_countries TimeoutException = Raise m →
          fetch_countries w = Raise m →
          status_code (refresh_countries_except msg) = 500)
  ∧ (∀ m feed,
          ExchangeRateService.fetch_exchange_rates TimeoutException = Raise m →
          fetch_countries w = Return feed →
          fetch_exchange_rates w = Raise m →
          status_code (refresh_countries_except msg) = 500).
Proof.
  intros H. pose proof H as H'.
  apply refresh_Raise in H' as (_ & e & ->).
  unfold refresh_countries_except.
  rewrite refresh_error_names_countries.
  destruct timed_out_is_no_timeout as (T1 & T2 & T3 & T4).
  split_and!.
  - destruct (_ || _); [by left|by right].
  - by destruct (_ || _).
  - intros m [= <-] Hc. unfold refresh_countries_data in H.
    rewrite Hc in H.
    assert (refresh_error e
            = refresh_error "Countries API request timed out") as ->
      by congruence.
    by rewrite T1, T2.
  - intros m feed [= <-] Hc Hr. unfold refresh_countries_data in H.
    rewrite Hc, Hr in H.
    assert (refresh_error e
            = refresh_error "Exchange rates API request timed out") as ->
      by congruence.
    by rewrite T3, T4.
Qed.

Lemma refresh_route_never_blames_the_rates_witness :
  refresh_countries_except
    (refresh_error "Exchange rates API request timed out")
  ≠ ExternalServiceError "Exchange Rates API"
  ∧ status_code
      (refresh_countries_except
         (refresh_error "Exchange rates API request timed out")) = 500.
Proof.
  destruct (refresh_route_never_blames_the_rates Samples.rates_down
              Samples.store
              (refresh_error "Exchange rates API request timed out")
              Samples.store eq_refl) as (_ & Hne & _ & Hrates).
  split; [exact Hne|].
  by apply (Hrates "Exchange rates API request timed out"
              [Samples.nigeria; Samples.ghana]).
Defined.

End RouterProperties.

(** ** Refresh, status and lookup together *)

Module StatusProperties.
Import CountryService CountryReads Reconciliation EngineFacts RefreshExtras.
#[local] Open Scope list_scope.

Lemma nothing_is_known_to_an_empty_table w rates feed st :
  rows st = [] →
  (loop_result w st rates feed).2 = length feed.
Proof.
  intros Hempty. unfold loop_result.
  destruct (loop_counters (rows st) (processed_from w rates 0 feed)
              (begin st) 0 0) as [_ ->].
  simpl. rewrite <- (processed_from_length w rates feed 0).
  f_equal. clear -Hempty. induction (processed_from w rates 0 feed) as [|p l IH].
  - done.
  - rewrite filter_cons, decide_True; [by rewrite IH|].
    unfold unmatched, query_first. by rewrite Hempty.
Qed.

(** X21.  After a successful refresh the status has a refresh time unless
    there is nothing to report on: the last_refreshed_at of
    [get_countries_stats] is null exactly when the catalog was empty
    before the refresh and the feed was empty too. *)
Theorem status_after_refresh w st st' updated added feed :
  refresh_countries_data w st = (Return (updated, added), st') →
  fetch_countries w = Return feed →
  (last_refreshed_at (get_countries_stats st') = None
   ↔ rows st = [] ∧ feed = []).
Proof.
  intros H Hc.
  pose proof H as Hret.
  apply refresh_Return in Hret as (feed' & rates & Hc' & _ & Hcommit & _ & Ha).
  rewrite Hc in Hc'. injection Hc' as <-.
  apply commit_Return in Hcommit as (Hrows & _ & _).
  pose proof (flushed_length w st rates feed) as Hlen.
  rewrite <- Hrows, <- Ha in Hlen.
  assert (Hnone : last_refreshed_at (get_countries_stats st') = None
                  ↔ rows st' = []).
  { unfold get_countries_stats. simpl.
    pose proof (ReadProperties.sql_max_spec
                  (Country.last_refreshed_at <$> rows st')) as Hmax.
    destruct (sql_max _) as [m|].
    - destruct Hmax as [Hm _]. split; [done|].
      intros E. rewrite E in Hm. by apply elem_of_nil in Hm.
    - by apply fmap_nil_inv in Hmax. }
  rewrite Hnone. split.
  - intros E. rewrite E in Hlen. simpl in Hlen.
    assert (Hst : rows st = []) by (apply length_zero_iff_nil; lia).
    split; [done|].
    pose proof (nothing_is_known_to_an_empty_table w rates feed st Hst) as Hn.
    rewrite <- Ha in Hn. apply length_zero_iff_nil. lia.
  - intros [Hst ->].
    pose proof (nothing_is_known_to_an_empty_table w rates [] st Hst) as Hn.
    rewrite <- Ha in Hn. simpl in Hn.
    apply length_zero_iff_nil. rewrite Hlen, Hst. simpl. lia.
Qed.

Lemma status_after_refresh_witness :
  last_refreshed_at
    (get_countries_stats
       (refresh_countries_data (Samples.world [] true) Samples.empty_store).2)
  = None
  ↔ rows Samples.empty_store = [] ∧ ([] : list NormalizedCountry.t) = [].
Proof.
  apply (status_after_refresh (Samples.world [] true) Samples.empty_store
           _ 0 0 []); reflexivity.
Defined.

(** X22.  Lookup by name does not see case: two spellings of a name that
    agree after case-folding get the same answer from
    [get_country_by_name] and from the route GET /countries/{name}, found
    or not (the 404 of the route does not quote the name). *)
Theorem lookup_ignores_case st n n' :
  lower n = lower n' →
  get_country_by_name st n = get_country_by_name st n'
  ∧ Router.get_country_by_name st n = Router.get_country_by_name st n'.
Proof.
  intros H.
  assert (E : get_country_by_name st n = get_country_by_name st n').
  { unfold get_country_by_name. f_equal. apply list_find_ext.
    intros c. unfold same_name. by rewrite H. }
  split; [done|]. unfold Router.get_country_by_name. rewrite E.
  by destruct (get_country_by_name st n').
Qed.

Lemma lookup_ignores_case_witness :
  get_country_by_name Samples.store "GHANA"
  = get_country_by_name Samples.store "ghana"
  ∧ Router.get_country_by_name Samples.store "GHANA"
    = Router.get_country_by_name Samples.store "ghana".
Proof. apply lookup_ignores_case. reflexivity. Defined.

End StatusProperties.
